(** * Knowledge-graph view: a shallow embedding of
      [web_app/static/js/knowledge-graph.js]

    The script keeps four globals ([network], [nodes], [edges], [graphData]),
    fills them from the graph export of the server ([loadGraph]) and reacts to
    user input ([searchEntity], [showEntityDetails], [fitGraph],
    [exportGraph]).  The globals, the few DOM fields the script writes and the
    effects it causes (alerts, camera moves, downloads) are gathered in a
    record [World]; every function of the script is a computation in a small
    state-and-exception monad over [World].

    Modelling conventions.
    - A JavaScript string is a [string]: a sequence of bytes, the UTF-8
      encoding of the text.
    - The built-ins [String.prototype.trim] and
      [String.prototype.toLowerCase] are not part of the script: they are
      parameters ([JsString.Builtins]), and every general statement holds
      for whatever functions they are.  The scenarios, whose texts have
      their blanks and cased letters in the ASCII range, are evaluated with
      the instance [JsString.ascii].
    - A node identifier is a JSON number or a JSON string; [===] on
      identifiers is structural equality ([1] and ["1"] differ).
    - [vis.DataSet] is the insertion-ordered store of vis-data: an
      association list with pairwise distinct identifiers. *)

From Stdlib Require Import List String Ascii ZArith Bool Lia Arith DecimalString
  Sorted.
Import ListNotations.
Local Open Scope string_scope.
Local Open Scope list_scope.

Set Implicit Arguments.

(** ** JavaScript strings *)

Module JsString.

(** The built-ins the script calls on strings. *)
Class Builtins : Type := {
  (** [String.prototype.toLowerCase] *)
  toLowerCase : string -> string;
  (** [String.prototype.trim] *)
  trim : string -> string }.

(** [s.includes(k)]: [k] occurs in [s] as a contiguous run. *)
Fixpoint includes (s k : string) : bool :=
  if String.prefix k s then true
  else match s with
       | EmptyString => false
       | String _ r => includes r k
       end.

(** Truthiness of a string: every string but the empty one. *)
Definition truthy (s : string) : bool :=
  match s with EmptyString => false | _ => true end.

(** [a || b] on an optional string [a] ([undefined] when absent). *)
Definition or_else (a : option string) (b : string) : string :=
  match a with
  | Some s => if truthy s then s else b
  | None => b
  end.

(** *** The built-ins on ASCII text

    What the two built-ins return on a text whose cased letters and blanks
    are all in the ASCII range (the other bytes are left alone): the
    instance with which the scenarios are evaluated. *)

Definition lower_ascii (c : ascii) : ascii :=
  let n := nat_of_ascii c in
  if andb (Nat.leb 65 n) (Nat.leb n 90) then ascii_of_nat (n + 32) else c.

Fixpoint ascii_toLowerCase (s : string) : string :=
  match s with
  | EmptyString => EmptyString
  | String c r => String (lower_ascii c) (ascii_toLowerCase r)
  end.

(** White space and line terminators of the ASCII range:
    TAB, LF, VT, FF, CR and SPACE. *)
Definition ascii_is_space (c : ascii) : bool :=
  let n := nat_of_ascii c in
  orb (andb (Nat.leb 9 n) (Nat.leb n 13)) (Nat.eqb n 32).

Fixpoint ascii_trimStart (s : string) : string :=
  match s with
  | EmptyString => EmptyString
  | String c r => if ascii_is_space c then ascii_trimStart r else s
  end.

(** Drops the blanks after the last non-blank character. *)
Fixpoint ascii_trimEnd (s : string) : string :=
  match s with
  | EmptyString => EmptyString
  | String c r =>
      match ascii_trimEnd r with
      | EmptyString =>
          if ascii_is_space c then EmptyString else String c EmptyString
      | r' => String c r'
      end
  end.

Definition ascii_trim (s : string) : string :=
  ascii_trimEnd (ascii_trimStart s).

Definition ascii : Builtins :=
  {| toLowerCase := ascii_toLowerCase; trim := ascii_trim |}.

(** A string all of whose characters are ASCII blanks. *)
Fixpoint all_space (s : string) : bool :=
  match s with
  | EmptyString => true
  | String c r => andb (ascii_is_space c) (all_space r)
  end.

End JsString.

(** ** Identifiers *)

Inductive Id : Type :=
| IdNum (n : Z)
| IdStr (s : string).

Definition Id_eqb (a b : Id) : bool :=
  match a, b with
  | IdNum x, IdNum y => Z.eqb x y
  | IdStr x, IdStr y => String.eqb x y
  | _, _ => false
  end.

(** ** The colour table *)

(** What a lookup in the object literal [typeColors] evaluates to: the colour
    string of an own key, or the member that the literal inherits from
    [Object.prototype] under that name. *)
Inductive Color : Type :=
| Hex (s : string)
| Inherited (name : string).

Definition typeColors_own : list (string * string) :=
  [ ("公司/组织", "#FF6B6B");
    ("人物", "#4ECDC4");
    ("产品/服务", "#45B7D1");
    ("技术/概念", "#FFA07A");
    ("地点", "#98D8C8");
    ("时间", "#DDA15E");
    ("项目/方案", "#F7DC6F");
    ("Unknown", "#B8B8B8") ].

(** The members every object literal inherits. *)
Definition object_prototype_members : list string :=
  [ "constructor"; "hasOwnProperty"; "isPrototypeOf"; "propertyIsEnumerable";
    "toLocaleString"; "toString"; "valueOf"; "__proto__";
    "__defineGetter__"; "__defineSetter__"; "__lookupGetter__";
    "__lookupSetter__" ].

Fixpoint assoc_string (k : string) (l : list (string * string)) : option string :=
  match l with
  | [] => None
  | (k', v) :: r => if String.eqb k k' then Some v else assoc_string k r
  end.

(** [typeColors[t]]; [None] is [undefined]. *)
Definition typeColors (t : string) : option Color :=
  match assoc_string t typeColors_own with
  | Some c => Some (Hex c)
  | None =>
      if existsb (String.eqb t) object_prototype_members
      then Some (Inherited t) else None
  end.

(** [typeColors[t] || typeColors['Unknown']]: every value of the table is
    truthy, so the fallback is taken exactly when the lookup is undefined;
    [unknownColor] is the value stored under ['Unknown']. *)
Definition unknownColor : Color := Hex "#B8B8B8".

Definition colorFor (t : string) : Color :=
  match typeColors t with
  | Some c => c
  | None => unknownColor
  end.

Definition highlightColor : Color := Hex "#FF0000".
Definition highlightBorderWidth : Z := 4.
(** [options.nodes.borderWidth] of [initNetwork]. *)
Definition defaultBorderWidth : Z := 2.


(** The text of an identifier inside a message. *)
Definition show_Id (i : Id) : string :=
  match i with
  | IdNum n => NilZero.string_of_int (Z.to_int n)
  | IdStr s => s
  end.

(** ** The graph export (the JSON document the server answers with) *)

Module RawNode.
Record t : Type := mk {
  id : Id;
  label : string;
  type : string;
  description : option string;
  source_document : option string }.
End RawNode.

Module RawEdge.
Record t : Type := mk {
  source : Id;
  target : Id;
  relation : string;
  description : option string }.
End RawEdge.

(** [{ success, nodes, edges, nodes_count?, edges_count?, error? }].  A field
    that the document lacks is [None]; a document without [nodes] or [edges]
    is a malformed payload. *)
Module Payload.
Record t : Type := mk {
  success : bool;
  error : option string;
  nodes : option (list RawNode.t);
  edges : option (list RawEdge.t);
  nodes_count : option Z;
  edges_count : option Z }.
End Payload.

(** ** Items of the two data sets *)

Module VisNode.
Record t : Type := mk {
  id : Id;
  label : string;
  title : string;
  color : Color;
  type : string;
  description : option string;
  source_document : option string;
  (** absent until a search sets it; the network then draws the width of
      its options, [defaultBorderWidth] *)
  borderWidth : option Z }.

Definition set_color (c : Color) (n : t) : t :=
  mk (id n) (label n) (title n) c (type n) (description n)
     (source_document n) (borderWidth n).

Definition set_color_border (c : Color) (b : Z) (n : t) : t :=
  mk (id n) (label n) (title n) c (type n) (description n)
     (source_document n) (Some b).

(** The width the network draws the node with. *)
Definition shownBorderWidth (n : t) : Z :=
  match borderWidth n with
  | Some b => b
  | None => defaultBorderWidth
  end.
End VisNode.

Module VisEdge.
Record t : Type := mk {
  id : nat;
  from : Id;
  to : Id;
  label : string;
  title : string }.
End VisEdge.

(** ** Exceptions *)

Inductive Exn : Type :=
| Error (message : string)
| TypeError (message : string)
| ReferenceError (message : string).

Definition message (e : Exn) : string :=
  match e with
  | Error m | TypeError m | ReferenceError m => m
  end.

(** ** [vis.DataSet] *)

Section DataSet.
Variables (K A : Type).
Variable key_eqb : K -> K -> bool.
Variable key : A -> K.
Variable show_key : K -> string.

(** The items in insertion order. *)
Definition DataSet : Type := list A.

(** [ds.get(k)]: the item stored under [k], or [null]. *)
Definition get (k : K) (ds : DataSet) : option A :=
  find (fun a => key_eqb (key a) k) ds.

Definition has (k : K) (ds : DataSet) : bool :=
  existsb (fun a => key_eqb (key a) k) ds.

(** [ds.add(items)]: appends the items one by one and throws at the first
    one whose identifier is stored already. *)
Fixpoint add (items : list A) (ds : DataSet) : Exn + DataSet :=
  match items with
  | [] => inr ds
  | a :: r =>
      if has (key a) ds
      then inl (Error ("Cannot add item: item with id " ++ show_key (key a)
                         ++ " already exists"))
      else add r (ds ++ [a])
  end.

(** [new vis.DataSet(items)]. *)
Definition new_DataSet (items : list A) : Exn + DataSet := add items [].

(** [ds.update({id: k, ...})] for a stored [k]: the fields of the patch
    are merged into the item, which keeps its place.  (For an identifier
    that is not stored vis-data would add the patch as a new item; the
    script only passes identifiers of items it has just read from the
    set, see [forEach].) *)
Definition update (k : K) (patch : A -> A) (ds : DataSet) : DataSet :=
  map (fun a => if key_eqb (key a) k then patch a else a) ds.

(** [ds.get({filter: f})]: the items that pass, in insertion order. *)
Definition get_filter (f : A -> bool) (ds : DataSet) : list A :=
  filter f ds.

(** [ds.forEach(cb)]: the identifiers are listed first; then, one
    identifier at a time, the item currently stored under it is read and
    handed to the callback, which may change the set (state [S] carries
    the set and whatever else the callback writes). *)
Fixpoint forEach_ids (S : Type) (current : S -> DataSet)
    (cb : A -> S -> S) (ids : list K) (s : S) : S :=
  match ids with
  | [] => s
  | k :: r =>
      forEach_ids current cb r
        (match get k (current s) with
         | Some a => cb a s
         | None => s
         end)
  end.

Definition forEach (S : Type) (current : S -> DataSet)
    (cb : A -> S -> S) (s : S) : S :=
  forEach_ids current cb (map key (current s)) s.
End DataSet.

Definition NodeSet : Type := DataSet VisNode.t.
Definition EdgeSet : Type := DataSet VisEdge.t.

Definition nodes_get : Id -> NodeSet -> option VisNode.t :=
  get Id_eqb VisNode.id.
Definition nodes_update : Id -> (VisNode.t -> VisNode.t) -> NodeSet -> NodeSet :=
  update Id_eqb VisNode.id.
Definition new_NodeSet : list VisNode.t -> Exn + NodeSet :=
  new_DataSet Id_eqb VisNode.id show_Id.
Definition new_EdgeSet : list VisEdge.t -> Exn + EdgeSet :=
  new_DataSet Nat.eqb VisEdge.id
    (fun i => NilZero.string_of_int (Z.to_int (Z.of_nat i))).

(** ** The page: globals, DOM fields and effects *)

(** The handle of the [vis.Network] instance.  The instance lives outside
    the script: the calls the script makes on it are recorded in the trace. *)
Inductive Network : Type := VisNetwork.

(** What the element [#mynetwork] holds. *)
Inductive Container : Type :=
| Static            (** the markup of the page, before any load *)
| LoadingSpinner    (** written by [showLoading] *)
| Canvas.           (** put there by the constructor of the network *)

(** One line of a relation list of the detail panel:
    [subject → relation → object]. *)
Record RelationItem : Type := mkRelationItem {
  subject : string;
  arrow : string;
  object : string }.

(** The markup [showEntityDetails] writes, by its variable parts. *)
Module Details.
Record t : Type := mk {
  label : string;
  type : string;
  description : option string;
  source_document : option string;
  outgoing : list RelationItem;
  incoming : list RelationItem;
  no_relations : bool }.
End Details.

Record Dom : Type := mkDom {
  container : Container;
  nodeCount : option Z;
  edgeCount : option Z;
  typeCount : option nat;
  entityDetails : option Details.t }.

Inductive Event : Type :=
| Alert (msg : string)
| ConsoleError (msg : string)
| Fetch (url : string)
| NetworkNew                     (** a call of [new vis.Network(container, data, options)] *)
| NetworkSetData                 (** [network.setData({nodes, edges})] *)
| NetworkFocus (id : Id)         (** [network.focus(id, {scale: 1.5, ...})] *)
| NetworkFit                     (** [network.fit({animation})] *)
| Download (filename : string) (document : Payload.t)
| Enter_showEntityDetails (id : Id).  (** a call of [showEntityDetails] *)

Record World : Type := mkWorld {
  network : option Network;
  nodes : option NodeSet;
  edges : option EdgeSet;
  graphData : option Payload.t;
  dom : Dom;
  (** reloads whose request has been sent and whose answer is awaited *)
  pending : nat;
  trace : list Event }.

(** The page as the script finds it. *)
Definition initial : World :=
  mkWorld None None None None (mkDom Static None None None None) 0 [].

(** What the page outside the script provides: whether the vis library has
    been loaded, and whether the constructor of the network throws. *)
Record Env : Type := mkEnv {
  vis_loaded : bool;
  network_ctor : option Exn }.

Definition good_env : Env := mkEnv true None.

(** ** Computations: state and exceptions *)

Inductive Result (A : Type) : Type :=
| Ret (a : A)
| Throw (e : Exn).
Arguments Ret {A} a.
Arguments Throw {A} e.

Definition M (A : Type) : Type := World -> Result A * World.

Definition ret {A} (a : A) : M A := fun w => (Ret a, w).
Definition throw {A} (e : Exn) : M A := fun w => (Throw e, w).
Definition bind {A B} (c : M A) (k : A -> M B) : M B :=
  fun w => match c w with
           | (Ret a, w') => k a w'
           | (Throw e, w') => (Throw e, w')
           end.
(** [try { c } catch (error) { h error }]: the writes of [c] stay. *)
Definition try_catch {A} (c : M A) (h : Exn -> M A) : M A :=
  fun w => match c w with
           | (Ret a, w') => (Ret a, w')
           | (Throw e, w') => h e w'
           end.
Definition read {A} (f : World -> A) : M A := fun w => (Ret (f w), w).
Definition modify (f : World -> World) : M unit := fun w => (Ret tt, f w).
Definition lift {A} (r : Exn + A) : M A :=
  match r with inl e => throw e | inr a => ret a end.

Notation "x <- c ;; k" := (bind c (fun x => k))
  (at level 61, c at next level, right associativity).
Notation "c ;; k" := (bind c (fun _ => k))
  (at level 61, right associativity).

Definition set_network (n : option Network) (w : World) : World :=
  mkWorld n (nodes w) (edges w) (graphData w) (dom w) (pending w) (trace w).
Definition set_nodes (n : option NodeSet) (w : World) : World :=
  mkWorld (network w) n (edges w) (graphData w) (dom w) (pending w) (trace w).
Definition set_edges (e : option EdgeSet) (w : World) : World :=
  mkWorld (network w) (nodes w) e (graphData w) (dom w) (pending w) (trace w).
Definition set_graphData (g : option Payload.t) (w : World) : World :=
  mkWorld (network w) (nodes w) (edges w) g (dom w) (pending w) (trace w).
Definition set_dom (d : Dom) (w : World) : World :=
  mkWorld (network w) (nodes w) (edges w) (graphData w) d (pending w) (trace w).
Definition set_pending (p : nat) (w : World) : World :=
  mkWorld (network w) (nodes w) (edges w) (graphData w) (dom w) p (trace w).
Definition emit (e : Event) : M unit :=
  modify (fun w =>
    mkWorld (network w) (nodes w) (edges w) (graphData w) (dom w) (pending w)
            (trace w ++ [e])).

Definition set_container (c : Container) (d : Dom) : Dom :=
  mkDom c (nodeCount d) (edgeCount d) (typeCount d) (entityDetails d).
Definition set_nodeCount (n : Z) (d : Dom) : Dom :=
  mkDom (container d) (Some n) (edgeCount d) (typeCount d) (entityDetails d).
Definition set_edgeCount (n : Z) (d : Dom) : Dom :=
  mkDom (container d) (nodeCount d) (Some n) (typeCount d) (entityDetails d).
Definition set_typeCount (n : nat) (d : Dom) : Dom :=
  mkDom (container d) (nodeCount d) (edgeCount d) (Some n) (entityDetails d).
Definition set_entityDetails (x : Details.t) (d : Dom) : Dom :=
  mkDom (container d) (nodeCount d) (edgeCount d) (typeCount d) (Some x).

Definition write_dom (f : Dom -> Dom) : M unit :=
  modify (fun w => set_dom (f (dom w)) w).

(** ** The script *)

(** [showLoading]: replaces the content of [#mynetwork] by the spinner. *)
Definition showLoading : M unit := write_dom (set_container LoadingSpinner).

(** [hideLoading]: an empty body. *)
Definition hideLoading : M unit := ret tt.

(** [n || 0] on an optional count. *)
Definition count_or_0 (n : option Z) : Z :=
  match n with
  | Some z => z
  | None => 0%Z
  end.

(** [new Set(l).size] on strings. *)
Definition distinct (l : list string) : nat :=
  List.length (nodup string_dec l).

(** [updateStats(data)]. *)
Definition updateStats (data : Payload.t) : M unit :=
  write_dom (set_nodeCount (count_or_0 (Payload.nodes_count data))) ;;
  write_dom (set_edgeCount (count_or_0 (Payload.edges_count data))) ;;
  match Payload.nodes data with
  | None => throw (TypeError "Cannot read properties of undefined (reading 'map')")
  | Some ns => write_dom (set_typeCount (distinct (map RawNode.type ns)))
  end.

(** [initNetwork()].  The two handlers it registers are [onClick] and
    [onDoubleClick] below. *)
Definition initNetwork (env : Env) : M unit :=
  if negb (vis_loaded env) then
    emit (ConsoleError "vis-network 库未加载") ;;
    emit (Alert "可视化库加载失败，请刷新页面重试")
  else
    emit NetworkNew ;;
    match network_ctor env with
    | Some e => throw e
    | None =>
        write_dom (set_container Canvas) ;;
        modify (set_network (Some VisNetwork))
    end.

(** The node item [loadGraph] builds from a record of the export. *)
Definition toVisNode (node : RawNode.t) : VisNode.t :=
  VisNode.mk (RawNode.id node) (RawNode.label node)
    (RawNode.type node ++ String "010" EmptyString
       ++ JsString.or_else (RawNode.description node) "")
    (colorFor (RawNode.type node))
    (RawNode.type node) (RawNode.description node)
    (RawNode.source_document node) None.

(** The edge item [loadGraph] builds from a record and its index. *)
Definition toVisEdge (index : nat) (edge : RawEdge.t) : VisEdge.t :=
  VisEdge.mk index (RawEdge.source edge) (RawEdge.target edge)
    (RawEdge.relation edge)
    (JsString.or_else (RawEdge.description edge) (RawEdge.relation edge)).

(** [l.map((x, index) => f index x)], counting from [start]. *)
Fixpoint mapi_from {A B} (f : nat -> A -> B) (start : nat) (l : list A) : list B :=
  match l with
  | [] => []
  | x :: r => f start x :: mapi_from f (S start) r
  end.

Definition mapi {A B} (f : nat -> A -> B) (l : list A) : list B :=
  mapi_from f 0 l.

(** What the two [await]s of [loadGraph] resume with: the request or the
    parsing of its body failed, or [result] is the parsed document. *)
Inductive FetchOutcome : Type :=
| Rejected (e : Exn)
| Resolved (result : Payload.t).

(** [new vis.DataSet(items)] as the script evaluates it: the global [vis]
    has to exist. *)
Definition construct {A} (env : Env) (r : Exn + A) : M A :=
  if vis_loaded env then lift r
  else throw (ReferenceError "vis is not defined").

(** [loadGraph], up to its first [await]. *)
Definition loadGraph_start : M unit :=
  showLoading ;;
  emit (Fetch "/api/knowledge-graph/export") ;;
  modify (fun w => set_pending (S (pending w)) w).

(** The [try] block of [loadGraph] after the [await]s. *)
Definition loadGraph_try (env : Env) (o : FetchOutcome) : M unit :=
  match o with
  | Rejected e => throw e
  | Resolved result =>
      if negb (Payload.success result) then
        emit (Alert ("加载失败: "
                       ++ JsString.or_else (Payload.error result) "未知错误")) ;;
        hideLoading
      else
        modify (set_graphData (Some result)) ;;
        nodesArray <-
          match Payload.nodes result with
          | Some ns => ret (map toVisNode ns)
          | None => throw (TypeError
                      "Cannot read properties of undefined (reading 'map')")
          end ;;
        edgesArray <-
          match Payload.edges result with
          | Some es => ret (mapi toVisEdge es)
          | None => throw (TypeError
                      "Cannot read properties of undefined (reading 'map')")
          end ;;
        ns <- construct env (new_NodeSet nodesArray) ;;
        modify (set_nodes (Some ns)) ;;
        es <- construct env (new_EdgeSet edgesArray) ;;
        modify (set_edges (Some es)) ;;
        updateStats result ;;
        net <- read network ;;
        match net with
        | None => initNetwork env
        | Some _ => emit NetworkSetData
        end ;;
        hideLoading
  end.

(** The [catch] block of [loadGraph]. *)
Definition loadGraph_catch (error : Exn) : M unit :=
  emit (ConsoleError "加载图谱失败:") ;;
  emit (Alert ("加载失败: " ++ message error)) ;;
  hideLoading.

(** [loadGraph], from the arrival of the answer to its end. *)
Definition loadGraph_resume (env : Env) (o : FetchOutcome) : M unit :=
  modify (fun w => set_pending (pred (pending w)) w) ;;
  try_catch (loadGraph_try env o) loadGraph_catch.

(** A whole run of [loadGraph] with nothing else in between. *)
Definition loadGraph (env : Env) (o : FetchOutcome) : M unit :=
  loadGraph_start ;; loadGraph_resume env o.

(** The two relation lists of [showEntityDetails]:
    [connectedEdges.filter(e => e.from === nodeId)] and
    [connectedEdges.filter(e => e.to === nodeId)], where [connectedEdges] is
    [edges.get({filter: edge => edge.from === nodeId || edge.to === nodeId})]. *)
Definition connectedEdges (nodeId : Id) (es : EdgeSet) : list VisEdge.t :=
  get_filter
    (fun edge => Id_eqb (VisEdge.from edge) nodeId
                 || Id_eqb (VisEdge.to edge) nodeId) es.

Definition outgoing (nodeId : Id) (es : EdgeSet) : list VisEdge.t :=
  filter (fun e => Id_eqb (VisEdge.from e) nodeId) (connectedEdges nodeId es).

Definition incoming (nodeId : Id) (es : EdgeSet) : list VisEdge.t :=
  filter (fun e => Id_eqb (VisEdge.to e) nodeId) (connectedEdges nodeId es).

Definition neighbors (nodeId : Id) (es : EdgeSet)
  : list VisEdge.t * list VisEdge.t :=
  (outgoing nodeId es, incoming nodeId es).

(** [list.forEach(e => { const other = nodes.get(end e); ... other.label ... })]:
    a line per edge; reading [label] of [null] throws. *)
Fixpoint relation_lines (ns : NodeSet) (other_end : VisEdge.t -> Id)
    (line : string -> VisEdge.t -> RelationItem) (l : list VisEdge.t)
  : Exn + list RelationItem :=
  match l with
  | [] => inr []
  | e :: r =>
      match nodes_get (other_end e) ns with
      | None => inl (TypeError "Cannot read properties of null (reading 'label')")
      | Some other =>
          match relation_lines ns other_end line r with
          | inl x => inl x
          | inr rest => inr (line (VisNode.label other) e :: rest)
          end
      end
  end.

(** [x ? x : ''] inside the markup: an absent or empty text shows nothing. *)
Definition shown (x : option string) : option string :=
  match x with
  | Some s => if JsString.truthy s then Some s else None
  | None => None
  end.

(** [showEntityDetails(nodeId)]. *)
Definition showEntityDetails (nodeId : Id) : M unit :=
  emit (Enter_showEntityDetails nodeId) ;;
  ons <- read nodes ;;
  match ons with
  | None => throw (TypeError "Cannot read properties of null (reading 'get')")
  | Some ns =>
      match nodes_get nodeId ns with
      | None => ret tt
      | Some node =>
          oes <- read edges ;;
          match oes with
          | None => throw (TypeError
                      "Cannot read properties of null (reading 'get')")
          | Some es =>
              let out := outgoing nodeId es in
              let inc := incoming nodeId es in
              outl <- lift (relation_lines ns VisEdge.to
                        (fun other e => mkRelationItem (VisNode.label node)
                                          (VisEdge.label e) other) out) ;;
              incl <- lift (relation_lines ns VisEdge.from
                        (fun other e => mkRelationItem other (VisEdge.label e)
                                          (VisNode.label node)) inc) ;;
              write_dom (set_entityDetails
                (Details.mk (VisNode.label node) (VisNode.type node)
                   (shown (VisNode.description node))
                   (shown (VisNode.source_document node))
                   outl incl
                   (andb (Nat.eqb (List.length out) 0)
                         (Nat.eqb (List.length inc) 0))))
          end
      end
  end.

(** The test of [searchEntity]:
    [node.label.toLowerCase().includes(keyword) ||
     (node.description && node.description.toLowerCase().includes(keyword))]. *)
Definition matches {B : JsString.Builtins} (keyword : string)
    (node : VisNode.t) : bool :=
  JsString.includes (JsString.toLowerCase (VisNode.label node)) keyword
  || match VisNode.description node with
     | Some d =>
         JsString.truthy d
         && JsString.includes (JsString.toLowerCase d) keyword
     | None => false
     end.

(** The callback of the first [nodes.forEach] (empty keyword). *)
Definition reset_cb (node : VisNode.t) (ns : NodeSet) : NodeSet :=
  nodes_update (VisNode.id node)
    (VisNode.set_color (colorFor (VisNode.type node))) ns.

(** The callback of the second [nodes.forEach]: it writes the set and the
    local array [foundNodes]. *)
Definition highlight_cb {B : JsString.Builtins} (keyword : string)
    (node : VisNode.t)
    (s : NodeSet * list Id) : NodeSet * list Id :=
  let (ns, foundNodes) := s in
  if matches keyword node then
    (nodes_update (VisNode.id node)
       (VisNode.set_color_border highlightColor highlightBorderWidth) ns,
     foundNodes ++ [VisNode.id node])
  else
    (nodes_update (VisNode.id node)
       (VisNode.set_color_border (colorFor (VisNode.type node))
          defaultBorderWidth) ns,
     foundNodes).

(** [event.target.value.trim().toLowerCase()]. *)
Definition keyword_of {B : JsString.Builtins} (value : string) : string :=
  JsString.toLowerCase (JsString.trim value).

(** [searchEntity(event)], [value] being [event.target.value]. *)
Definition searchEntity {B : JsString.Builtins} (value : string) : M unit :=
  let keyword := keyword_of value in
  if negb (JsString.truthy keyword) then
    ons <- read nodes ;;
    match ons with
    | Some ns =>
        modify (set_nodes
          (Some (forEach Id_eqb VisNode.id (fun s => s) reset_cb ns)))
    | None => ret tt
    end
  else
    ons <- read nodes ;;
    match ons with
    | None => ret tt
    | Some ns =>
        let (ns', foundNodes) :=
          forEach Id_eqb VisNode.id fst (highlight_cb keyword) (ns, []) in
        modify (set_nodes (Some ns')) ;;
        net <- read network ;;
        match foundNodes, net with
        | [found], Some _ =>
            emit (NetworkFocus found) ;;
            showEntityDetails found
        | _, _ => ret tt
        end
    end.

(** [fitGraph()]. *)
Definition fitGraph : M unit :=
  net <- read network ;;
  match net with
  | Some _ => emit NetworkFit
  | None => ret tt
  end.

(** [exportGraph()]: the download carries [JSON.stringify(graphData, null, 2)],
    recorded as the document that is serialised. *)
Definition exportGraph : M unit :=
  g <- read graphData ;;
  match g with
  | None => emit (Alert "请先加载图谱")
  | Some doc => emit (Download "knowledge_graph.json" doc)
  end.

(** The handler of ['click']; [ids] is [params.nodes]. *)
Definition onClick (ids : list Id) : M unit :=
  match ids with
  | nodeId :: _ => showEntityDetails nodeId
  | [] => ret tt
  end.

(** The handler of ['doubleClick']. *)
Definition onDoubleClick (ids : list Id) : M unit :=
  match ids with
  | nodeId :: _ => emit (NetworkFocus nodeId)
  | [] => ret tt
  end.

(** ** The event loop *)

(** What can happen on the page, one turn of the event loop each. *)
Inductive Action : Type :=
| Reload                                  (** a call of [loadGraph()] *)
| Answer (env : Env) (o : FetchOutcome)   (** the answer to a request arrives *)
| Search (value : string)
| Click (ids : list Id)
| DoubleClick (ids : list Id)
| Fit
| Export.

Definition handler {B : JsString.Builtins} (a : Action) : M unit :=
  match a with
  | Reload => loadGraph_start
  | Answer env o => loadGraph_resume env o
  | Search value => searchEntity value
  | Click ids => onClick ids
  | DoubleClick ids => onDoubleClick ids
  | Fit => fitGraph
  | Export => exportGraph
  end.

(** The world a computation leaves, whether it returns or throws. *)
Definition exec {A} (c : M A) (w : World) : World := snd (c w).

(** An answer needs a pending request; clicks come from the network. *)
Definition enabled (a : Action) (w : World) : bool :=
  match a with
  | Answer _ _ => negb (Nat.eqb (pending w) 0)
  | Click _ | DoubleClick _ =>
      match network w with Some _ => true | None => false end
  | _ => true
  end.

Inductive step {B : JsString.Builtins} : World -> Action -> World -> Prop :=
| step_intro (w : World) (a : Action) :
    enabled a w = true -> step w a (exec (handler a) w).

(** The worlds the page can be in: [window.onload] calls [loadGraph()]. *)
Inductive reachable {B : JsString.Builtins} : World -> Prop :=
| reach_load : reachable (exec loadGraph_start initial)
| reach_step (w w' : World) (a : Action) :
    reachable w -> step w a w' -> reachable w'.

(** Running a list of actions, skipping those that are not enabled. *)
Fixpoint run {B : JsString.Builtins} (l : list Action) (w : World) : World :=
  match l with
  | [] => w
  | a :: r => run r (if enabled a w then exec (handler a) w else w)
  end.

(** ** Predicates of the statements *)

(** [k] occurs in [s]. *)
Definition substring (k s : string) : Prop :=
  exists a b : string, s = (a ++ k ++ b)%string.

(** The events of a kind in a trace. *)
Definition is_focus (e : Event) : bool :=
  match e with NetworkFocus _ => true | _ => false end.
Definition is_details (e : Event) : bool :=
  match e with Enter_showEntityDetails _ => true | _ => false end.
Definition is_download (e : Event) : bool :=
  match e with Download _ _ => true | _ => false end.
Definition is_fetch (e : Event) : bool :=
  match e with Fetch _ => true | _ => false end.

Definition count (p : Event -> bool) (l : list Event) : nat :=
  List.length (filter p l).


(** [searchEntity] on one node: what the second [forEach] leaves of it. *)
Definition highlight {B : JsString.Builtins} (keyword : string)
    (n : VisNode.t) : VisNode.t :=
  if matches keyword n
  then VisNode.set_color_border highlightColor highlightBorderWidth n
  else VisNode.set_color_border (colorFor (VisNode.type n)) defaultBorderWidth n.

(** What the first [forEach] leaves of a node. *)
Definition reset (n : VisNode.t) : VisNode.t :=
  VisNode.set_color (colorFor (VisNode.type n)) n.

(** Boolean test of pairwise distinct identifiers. *)
Fixpoint distinct_idsb (l : list Id) : bool :=
  match l with
  | [] => true
  | i :: r => negb (existsb (Id_eqb i) r) && distinct_idsb r
  end.

(** The edge identifiers are the indices [0, 1, ...] in order. *)
Fixpoint indexed_from (start : nat) (es : list VisEdge.t) : bool :=
  match es with
  | [] => true
  | e :: r => Nat.eqb (VisEdge.id e) start && indexed_from (S start) r
  end.

(** The shape of the two sets in every world the script produces. *)
Definition well_formed (w : World) : bool :=
  match nodes w with
  | Some ns => distinct_idsb (map VisNode.id ns)
  | None => true
  end
  && match edges w with
     | Some es => indexed_from 0 es
     | None => true
     end.

(** A valid export: it reports success, has its two arrays, and its nodes
    have pairwise distinct identifiers. *)
Definition valid_export (result : Payload.t) : bool :=
  Payload.success result
  && match Payload.nodes result, Payload.edges result with
     | Some ns, Some _ => distinct_idsb (map RawNode.id ns)
     | _, _ => false
     end.

(** The four globals of the script. *)
Definition globals (w : World)
  : option Network * option NodeSet * option EdgeSet * option Payload.t :=
  (network w, nodes w, edges w, graphData w).

(** ** The scenarios of the specification

    Their texts are ASCII or caseless: they are evaluated with the ASCII
    instance of the built-ins. *)

#[global] Existing Instance JsString.ascii.


Module Scenario.
Definition acme : RawNode.t :=
  RawNode.mk (IdNum 1) "Acme" "公司/组织" None None.
Definition alice : RawNode.t :=
  RawNode.mk (IdNum 2) "Alice" "人物" None None.
Definition employs : RawEdge.t :=
  RawEdge.mk (IdNum 1) (IdNum 2) "雇用" None.

(** The two-node snapshot with its one edge. *)
Definition export : Payload.t :=
  Payload.mk true None (Some [acme; alice]) (Some [employs]) None None.

(** The same snapshot, its edge starting at the missing node 99. *)
Definition dangling : Payload.t :=
  Payload.mk true None (Some [acme; alice])
    (Some [RawEdge.mk (IdNum 99) (IdNum 2) "雇用" None])
    (Some 2%Z) (Some 1%Z).

(** A document that claims success and has no [nodes]. *)
Definition malformed : Payload.t :=
  Payload.mk true None None None None None.

(** A refusal of the server. *)
Definition refused : Payload.t :=
  Payload.mk false (Some "graph not built") None None None None.

(** The page after the first load of [export]. *)
Definition loaded : World :=
  run [Answer good_env (Resolved export)] (exec loadGraph_start initial).


(** A node with a relation to itself. *)
Definition self_loop : EdgeSet :=
  [VisEdge.mk 0 (IdNum 1) (IdNum 1) "owns" "owns"].
End Scenario.

(** ** Further predicates *)

Definition is_alert (e : Event) : bool :=
  match e with Alert _ => true | _ => false end.
Definition is_network_new (e : Event) : bool :=
  match e with NetworkNew => true | _ => false end.

(** Every edge starts and ends at a stored node. *)
Definition closed (ns : NodeSet) (es : EdgeSet) : bool :=
  forallb (fun e => has Id_eqb VisNode.id (VisEdge.from e) ns
                    && has Id_eqb VisNode.id (VisEdge.to e) ns) es.

(** The fields of a node that come from the export, as opposed to the two
    display fields [color] and [borderWidth]. *)
Definition data_of (n : VisNode.t)
  : Id * string * string * string * option string * option string :=
  (VisNode.id n, VisNode.label n, VisNode.title n, VisNode.type n,
   VisNode.description n, VisNode.source_document n).

(** What a search leaves of a node, with or without keyword. *)
Definition repaint {B : JsString.Builtins} (value : string)
    (n : VisNode.t) : VisNode.t :=
  if JsString.truthy (keyword_of value)
  then highlight (keyword_of value) n
  else reset n.

(** An answer after which [loadGraph] reaches the end of its [try] block. *)
Definition succeeds (env : Env) (o : FetchOutcome) (w : World) : bool :=
  match o with
  | Rejected _ => false
  | Resolved result =>
      valid_export result && vis_loaded env
      && match network w, network_ctor env with
         | None, Some _ => false
         | _, _ => true
         end
  end.

Definition is_set {A} (x : option A) : bool :=
  match x with Some _ => true | None => false end.

(** The globals are filled in the order [graphData], [nodes] and [edges]
    together, [network]. *)
Definition globals_in_order (w : World) : bool :=
  implb (is_set (network w)) (is_set (nodes w))
  && Bool.eqb (is_set (nodes w)) (is_set (edges w))
  && implb (is_set (nodes w)) (is_set (graphData w)).

(** Further scenarios. *)
Module Cases.
(** An export in which the identifier 1 occurs twice. *)
Definition twins : Payload.t :=
  Payload.mk true None
    (Some [Scenario.acme; RawNode.mk (IdNum 1) "Acme Ltd" "公司/组织" None None])
    (Some []) None None.

(** The snapshot of the scenario with its edge ending at the missing node 99. *)
Definition dangling_target : Payload.t :=
  Payload.mk true None (Some [Scenario.acme; Scenario.alice])
    (Some [RawEdge.mk (IdNum 1) (IdNum 99) "雇用" None])
    None None.

End Cases.


(** A world without store, or with two stores in which every edge starts
    and ends at a stored node. *)
Definition closed_world (w : World) : bool :=
  match nodes w, edges w with
  | None, _ => true
  | Some ns, Some es => closed ns es
  | Some _, None => false
  end.

(** An export with its two arrays in which every edge record names nodes
    of the export as source and target. *)
Definition dangling_free (result : Payload.t) : bool :=
  match Payload.nodes result, Payload.edges result with
  | Some ns, Some es =>
      forallb (fun e =>
        existsb (fun n => Id_eqb (RawNode.id n) (RawEdge.source e)) ns
        && existsb (fun n => Id_eqb (RawNode.id n) (RawEdge.target e)) ns) es
  | _, _ => false
  end.

(** ** The helpers of the page: status line and HTML escaping *)

Module Utils.

Definition newline : ascii := "010"%char.

(** [s.split('\n')]: the pieces between the line feeds, at least one. *)
Fixpoint split_lines (s : string) : list string :=
  match s with
  | EmptyString => [EmptyString]
  | String c r =>
      if Ascii.eqb c newline then EmptyString :: split_lines r
      else match split_lines r with
           | l :: ls => String c l :: ls
           | [] => [String c EmptyString]
           end
  end.

(** A child of the status element. *)
Inductive DomNode : Type :=
| TextNode (data : string)
| Br.

(** The children [showStatus] gives the element: for a message with a line
    feed, a text node per line with a [<br>] before every line but the
    first; otherwise [textContent = message], which creates one text node,
    and none for the empty message. *)
Definition status_children (message : string) : list DomNode :=
  if JsString.includes message (String newline EmptyString) then
    match split_lines message with
    | [] => []
    | line :: rest =>
        TextNode line :: flat_map (fun l => [Br; TextNode l]) rest
    end
  else if JsString.truthy message then [TextNode message] else [].

(** The text a list of children shows, a [<br>] breaking the line. *)
Fixpoint shown_text (l : list DomNode) : string :=
  match l with
  | [] => EmptyString
  | TextNode s :: r => (s ++ shown_text r)%string
  | Br :: r => String newline (shown_text r)
  end.

(** The [<br>] elements among the children. *)
Fixpoint count_br (l : list DomNode) : nat :=
  match l with
  | [] => 0
  | Br :: r => S (count_br r)
  | TextNode _ :: r => count_br r
  end.

(** An element with the class [status]; [handle] stands for the identity
    of the DOM object, which the timer of [showStatus] holds on to. *)
Record StatusEl : Type := mkStatus {
  handle : nat;
  className : string;
  children : list DomNode }.

(** The part of the document [showStatus] works on: the elements of class
    [status] in document order, the timers that are set, and the next
    unused handle. *)
Record StatusPage : Type := mkPage {
  statuses : list StatusEl;
  timers : list nat;
  fresh : nat }.

(** [showStatus(message, type, duration)]. *)
Definition showStatus (message type : string) (duration : Z) (p : StatusPage)
  : StatusPage :=
  let remaining :=
    match statuses p with
    | [] => []
    | _ :: r => r
    end in
  mkPage
    (remaining
       ++ [mkStatus (fresh p) ("status " ++ type) (status_children message)])
    (if (0 <? duration)%Z then timers p ++ [fresh p] else timers p)
    (S (fresh p)).

(** The default of the third parameter. *)
Definition default_duration : Z := 3000.

(** The callback of the timer set for the element [h]: [status.remove()],
    which does nothing when the element has left the document. *)
Definition timer_fires (h : nat) (p : StatusPage) : StatusPage :=
  mkPage (filter (fun e => negb (Nat.eqb (handle e) h)) (statuses p))
         (filter (fun t => negb (Nat.eqb t h)) (timers p))
         (fresh p).

Inductive StatusAction : Type :=
| Show (message type : string) (duration : Z)
| Fire (h : nat).

Definition status_step (a : StatusAction) (p : StatusPage) : StatusPage :=
  match a with
  | Show message type duration => showStatus message type duration p
  | Fire h => if existsb (Nat.eqb h) (timers p) then timer_fires h p else p
  end.

Definition status_run (l : list StatusAction) (p : StatusPage) : StatusPage :=
  fold_left (fun q a => status_step a q) l p.

(** The text of a text node as [innerHTML] serialises it: [&], [<], [>]
    and the no-break space (the bytes C2 A0) become entities. *)
Fixpoint serialize_text (s : string) : string :=
  match s with
  | EmptyString => EmptyString
  | String c r =>
      if Ascii.eqb c "&" then ("&amp;" ++ serialize_text r)%string
      else if Ascii.eqb c "<" then ("&lt;" ++ serialize_text r)%string
      else if Ascii.eqb c ">" then ("&gt;" ++ serialize_text r)%string
      else if Ascii.eqb c "194" then
        match r with
        | String d r' =>
            if Ascii.eqb d "160" then ("&nbsp;" ++ serialize_text r')%string
            else String c (serialize_text r)
        | EmptyString => String c EmptyString
        end
      else String c (serialize_text r)
  end.

(** [s.replace(/\n/g, '<br>')]. *)
Fixpoint br_for_newlines (s : string) : string :=
  match s with
  | EmptyString => EmptyString
  | String c r =>
      if Ascii.eqb c newline then ("<br>" ++ br_for_newlines r)%string
      else String c (br_for_newlines r)
  end.

(** [escapeHtml(text)]. *)
Definition escapeHtml (text : string) : string :=
  br_for_newlines (serialize_text text).

(** The occurrences of a character in a string. *)
Fixpoint occurrences (c : ascii) (s : string) : nat :=
  match s with
  | EmptyString => 0
  | String d r => (if Ascii.eqb d c then 1 else 0) + occurrences c r
  end.

(** The no-break space U+00A0 in UTF-8. *)
Definition nbsp : string := String "194" (String "160" EmptyString).

(** The document with no status shown. *)
Definition blank_page : StatusPage := mkPage [] [] 0.

End Utils.

(** * Properties *)

(** Closed statements about a scenario are settled by evaluation. *)
Ltac conjuncts := repeat match goal with |- _ /\ _ => split end.
Ltac evaluate := cbv zeta; conjuncts; vm_compute; try reflexivity.

(** ** Identifiers and strings *)

Lemma Id_eqb_spec (a b : Id) : reflect (a = b) (Id_eqb a b).
Proof.
  destruct a as [x|x], b as [y|y]; simpl;
    try (constructor; discriminate).
  - destruct (Z.eqb_spec x y); constructor; congruence.
  - destruct (String.eqb_spec x y); constructor; congruence.
Qed.

Lemma Id_eqb_refl (a : Id) : Id_eqb a a = true.
Proof. destruct (Id_eqb_spec a a); congruence. Qed.

Lemma Id_eqb_eq (a b : Id) : Id_eqb a b = true <-> a = b.
Proof. destruct (Id_eqb_spec a b); split; congruence. Qed.

Lemma Id_eqb_neq (a b : Id) : Id_eqb a b = false <-> a <> b.
Proof. destruct (Id_eqb_spec a b); split; congruence. Qed.

Lemma prefix_iff (k s : string) :
  String.prefix k s = true <-> exists b, s = (k ++ b)%string.
Proof.
  revert s; induction k as [|c k IH]; intros s.
  - split; [intros _; exists s; reflexivity | intros _; now destruct s].
  - destruct s as [|d s]; simpl.
    + split; [discriminate | intros [b Hb]; discriminate].
    + destruct (Ascii.ascii_dec c d) as [->|Hcd].
      * rewrite IH. split; intros [b Hb]; exists b.
        -- now rewrite Hb.
        -- now inversion Hb.
      * split; [discriminate | intros [b Hb]; inversion Hb; congruence].
Qed.

Lemma includes_iff (s k : string) :
  JsString.includes s k = true <-> substring k s.
Proof.
  unfold substring. induction s as [|c s IH].
  - cbn [JsString.includes].
    destruct (String.prefix k "") eqn:Hp.
    + apply prefix_iff in Hp as [b Hb].
      split; [intros _; exists ""%string, b; exact Hb | reflexivity].
    + split; [discriminate|]. intros (a & b & Hab).
      destruct a; [|discriminate]. simpl in Hab.
      assert (String.prefix k "" = true) by (apply prefix_iff; eauto).
      congruence.
  - cbn [JsString.includes].
    destruct (String.prefix k (String c s)) eqn:Hp.
    + apply prefix_iff in Hp as [b Hb].
      split; [intros _; exists ""%string, b; exact Hb | reflexivity].
    + rewrite IH. split.
      * intros (a & b & Hab). exists (String c a), b. simpl. now rewrite Hab.
      * intros (a & b & Hab). destruct a as [|d a].
        -- simpl in Hab.
           assert (String.prefix k (String c s) = true)
             by (apply prefix_iff; eauto).
           congruence.
        -- simpl in Hab. inversion Hab; subst. eauto.
Qed.

Lemma includes_empty_text (k : string) :
  JsString.truthy k = true -> JsString.includes "" k = false.
Proof. destruct k; [discriminate | reflexivity]. Qed.

(** The test of [searchEntity], in words; an empty description counts as
    none ([node.description &&]). *)
Lemma matches_iff {B : JsString.Builtins} (keyword : string) (n : VisNode.t) :
  matches keyword n = true <->
  substring keyword (JsString.toLowerCase (VisNode.label n))
  \/ exists d, VisNode.description n = Some d
               /\ d <> EmptyString
               /\ substring keyword (JsString.toLowerCase d).
Proof.
  unfold matches. rewrite orb_true_iff, includes_iff.
  split; (intros [H|H]; [left; exact H | right]).
  - destruct (VisNode.description n) as [d|]; [|discriminate].
    apply andb_true_iff in H as [Hd H]. exists d. split; [reflexivity|].
    split; [now destruct d | now apply includes_iff].
  - destruct H as (d & -> & Hd & H). apply andb_true_iff. split.
    + now destruct d.
    + now apply includes_iff.
Qed.

(** ** The data set *)

Section DataSetFacts.
Variables (K A : Type).
Variable key_eqb : K -> K -> bool.
Variable key : A -> K.
Hypothesis key_eqb_eq : forall a b, key_eqb a b = true <-> a = b.

Lemma has_false (k : K) (ds : DataSet A) :
  has key_eqb key k ds = false <-> ~ In k (map key ds).
Proof.
  unfold has. induction ds as [|a ds IH]; simpl.
  - tauto.
  - rewrite orb_false_iff, IH. split.
    + intros [Ha Hn] [Hk|Hk]; [|tauto].
      apply key_eqb_eq in Hk. congruence.
    + intros Hn. split; [|tauto].
      destruct (key_eqb (key a) k) eqn:E; [|reflexivity].
      apply key_eqb_eq in E. tauto.
Qed.

Section Adding.
Variable show_key : K -> string.

(** Items with fresh, pairwise distinct identifiers are all appended. *)
Lemma add_distinct (items : list A) (ds : DataSet A) :
NoDup (map key (ds ++ items)) ->
add key_eqb key show_key items ds = inr (ds ++ items).
Proof.
revert ds; induction items as [|a r IH]; intros ds Hnd; simpl.
- now rewrite app_nil_r.
- assert (Hfresh : has key_eqb key (key a) ds = false).
  { apply has_false. rewrite map_app in Hnd. simpl in Hnd.
    apply NoDup_remove_2 in Hnd. rewrite in_app_iff in Hnd. tauto. }
  rewrite Hfresh, IH; rewrite <- app_assoc; [reflexivity | exact Hnd].
Qed.

(** Whatever [add] returns has pairwise distinct identifiers. *)
Lemma add_returns (items : list A) (ds ds' : DataSet A) :
add key_eqb key show_key items ds = inr ds' ->
NoDup (map key ds) ->
ds' = ds ++ items /\ NoDup (map key ds').
Proof.
revert ds; induction items as [|a r IH]; intros ds Hadd Hnd; simpl in Hadd.
- inversion Hadd; subst. now rewrite app_nil_r.
- destruct (has key_eqb key (key a) ds) eqn:Hfresh; [discriminate|].
  apply has_false in Hfresh.
  apply IH in Hadd as [-> Hnd'].
  + split; [now rewrite <- app_assoc | exact Hnd'].
  + rewrite map_app. simpl. apply NoDup_app.
    * exact Hnd.
    * constructor; [simpl; tauto | constructor].
    * intros x Hx [<-|[]]. contradiction.
Qed.
End Adding.

Lemma get_at (pre r : list A) (a : A) :
  ~ In (key a) (map key pre) ->
  get key_eqb key (key a) (pre ++ a :: r) = Some a.
Proof.
  unfold get. induction pre as [|b pre IH]; simpl; intros Hn.
  - assert (E : key_eqb (key a) (key a) = true) by now apply key_eqb_eq.
    now rewrite E.
  - destruct (key_eqb (key b) (key a)) eqn:E.
    + apply key_eqb_eq in E. tauto.
    + apply IH. tauto.
Qed.

Lemma update_other (k : K) (p : A -> A) (l : list A) :
  ~ In k (map key l) -> update key_eqb key k p l = l.
Proof.
  unfold update. induction l as [|b l IH]; simpl; intros Hn.
  - reflexivity.
  - destruct (key_eqb (key b) k) eqn:E.
    + apply key_eqb_eq in E. tauto.
    + rewrite IH by tauto. reflexivity.
Qed.

Lemma update_at (pre r : list A) (a : A) (p : A -> A) :
  ~ In (key a) (map key pre) -> ~ In (key a) (map key r) ->
  update key_eqb key (key a) p (pre ++ a :: r) = pre ++ p a :: r.
Proof.
  intros Hpre Hr.
  pose proof (@update_other (key a) p pre Hpre) as E1.
  pose proof (@update_other (key a) p r Hr) as E2.
  unfold update in *. rewrite map_app. simpl.
  assert (E : key_eqb (key a) (key a) = true) by now apply key_eqb_eq.
  now rewrite E, E1, E2.
Qed.

(** A [forEach] whose callback patches the item it is handed and feeds an
    accumulator: the set is mapped, the accumulator folded, in insertion
    order. *)
Section ForEach.
Variables (S B : Type).
Variable current : S -> DataSet A.
Variable acc : S -> B.
Variable cb : A -> S -> S.
Variable p : A -> A -> A.
Variable g : A -> B -> B.
Hypothesis cb_current : forall a s,
  current (cb a s) = update key_eqb key (key a) (p a) (current s).
Hypothesis cb_acc : forall a s, acc (cb a s) = g a (acc s).
Hypothesis p_key : forall a b, key (p a b) = key b.

Lemma forEach_ids_patches (rest pre : list A) (s : S) :
  current s = pre ++ rest ->
  NoDup (map key (pre ++ rest)) ->
  let s' := forEach_ids key_eqb key current cb (map key rest) s in
  current s' = pre ++ map (fun a => p a a) rest
  /\ acc s' = fold_left (fun b a => g a b) rest (acc s).
Proof.
  revert pre s; induction rest as [|a r IH]; intros pre s Hcur Hnd; simpl.
  - now rewrite Hcur.
  - assert (Hpre : ~ In (key a) (map key pre)).
    { rewrite map_app in Hnd. simpl in Hnd.
      apply NoDup_remove_2 in Hnd. rewrite in_app_iff in Hnd. tauto. }
    assert (Hr : ~ In (key a) (map key r)).
    { rewrite map_app in Hnd. apply NoDup_app_remove_l in Hnd.
      simpl in Hnd. now inversion Hnd. }
    rewrite Hcur, get_at by exact Hpre.
    destruct (IH (pre ++ [p a a]) (cb a s)) as [E1 E2].
    + rewrite cb_current, Hcur, update_at by assumption.
      now rewrite <- app_assoc.
    + rewrite <- app_assoc. simpl.
      rewrite map_app in *. simpl in *. now rewrite p_key.
    + rewrite E1, E2, cb_acc, <- app_assoc. now split.
Qed.

Lemma forEach_patches (s : S) :
  NoDup (map key (current s)) ->
  current (forEach key_eqb key current cb s)
    = map (fun a => p a a) (current s)
  /\ acc (forEach key_eqb key current cb s)
     = fold_left (fun b a => g a b) (current s) (acc s).
Proof.
  intros Hnd. unfold forEach.
  exact (@forEach_ids_patches (current s) [] s eq_refl Hnd).
Qed.
End ForEach.
End DataSetFacts.

Lemma distinct_idsb_NoDup (l : list Id) :
  distinct_idsb l = true <-> NoDup l.
Proof.
  induction l as [|i r IH]; simpl.
  - split; [constructor | reflexivity].
  - rewrite andb_true_iff, negb_true_iff, IH. split.
    + intros [Hn Hr]. constructor; [|exact Hr].
      intros Hin. assert (existsb (Id_eqb i) r = true); [|congruence].
      apply existsb_exists. exists i. split; [exact Hin | apply Id_eqb_refl].
    + intros Hnd. inversion Hnd as [|? ? Hn Hr]; subst. split; [|exact Hr].
      destruct (existsb (Id_eqb i) r) eqn:E; [|reflexivity].
      apply existsb_exists in E as (x & Hx & Ex).
      apply Id_eqb_eq in Ex. subst. contradiction.
Qed.

(** ** Search *)

Lemma filter_ids_fold {B : JsString.Builtins} (keyword : string) (ns : list VisNode.t) (found : list Id) :
  fold_left
    (fun b a => if matches keyword a then b ++ [VisNode.id a] else b) ns found
  = found ++ map VisNode.id (filter (matches keyword) ns).
Proof.
  revert found; induction ns as [|n r IH]; intros found; simpl.
  - now rewrite app_nil_r.
  - rewrite IH. destruct (matches keyword n); simpl.
    + now rewrite <- app_assoc.
    + reflexivity.
Qed.

(** The second [forEach] of [searchEntity] repaints every node and collects
    the identifiers of the matching ones in insertion order. *)
Lemma forEach_highlight {B : JsString.Builtins} (keyword : string) (ns : NodeSet) :
  NoDup (map VisNode.id ns) ->
  forEach Id_eqb VisNode.id fst (highlight_cb keyword) (ns, [])
  = (map (highlight keyword) ns,
     map VisNode.id (filter (matches keyword) ns)).
Proof.
  intros Hnd.
  destruct (@forEach_patches Id VisNode.t Id_eqb VisNode.id Id_eqb_eq
              (NodeSet * list Id) (list Id) fst snd (highlight_cb keyword)
              (fun a => if matches keyword a
                        then VisNode.set_color_border highlightColor
                               highlightBorderWidth
                        else VisNode.set_color_border
                               (colorFor (VisNode.type a)) defaultBorderWidth)
              (fun a b => if matches keyword a then b ++ [VisNode.id a] else b))
    with (s := (ns, @nil Id)) as [E1 E2].
  - intros a [ds found]. unfold highlight_cb, nodes_update.
    now destruct (matches keyword a).
  - intros a [ds found]. unfold highlight_cb.
    now destruct (matches keyword a).
  - intros a b. now destruct (matches keyword a).
  - exact Hnd.
  - simpl in E1, E2. rewrite filter_ids_fold in E2. simpl in E2.
    apply injective_projections; simpl.
    + etransitivity; [exact E1|].
      apply map_ext. intros a. unfold highlight.
      now destruct (matches keyword a).
    + exact E2.
Qed.

(** The first [forEach] of [searchEntity] repaints every node with the
    colour of its type and writes nothing else. *)
Lemma forEach_reset (ns : NodeSet) :
  NoDup (map VisNode.id ns) ->
  forEach Id_eqb VisNode.id (fun s => s) reset_cb ns = map reset ns.
Proof.
  intros Hnd.
  destruct (@forEach_patches Id VisNode.t Id_eqb VisNode.id Id_eqb_eq
              NodeSet unit (fun s => s) (fun _ => tt) reset_cb
              (fun a => VisNode.set_color (colorFor (VisNode.type a)))
              (fun _ _ => tt))
    with (s := ns) as [E1 _]; try reflexivity; try exact Hnd.
  exact E1.
Qed.

Lemma well_formed_nodes (w : World) (ns : NodeSet) :
  well_formed w = true -> nodes w = Some ns -> NoDup (map VisNode.id ns).
Proof.
  unfold well_formed. intros H E. rewrite E in H.
  apply andb_true_iff in H as [H _]. now apply distinct_idsb_NoDup.
Qed.

(** [showEntityDetails] writes the detail panel at most; it leaves one
    entry in the trace, whether it returns or throws. *)
Lemma showEntityDetails_frame (nodeId : Id) (w : World) :
  let w' := exec (showEntityDetails nodeId) w in
  network w' = network w /\ nodes w' = nodes w /\ edges w' = edges w
  /\ graphData w' = graphData w /\ pending w' = pending w
  /\ trace w' = trace w ++ [Enter_showEntityDetails nodeId].
Proof.
  unfold exec, showEntityDetails, bind, read, emit, modify, write_dom, lift.
  simpl. destruct (nodes w) as [ns|]; simpl; [|tauto].
  destruct (nodes_get nodeId ns) as [node|]; simpl; [|tauto].
  destruct (edges w) as [es|]; simpl; [|tauto].
  destruct (relation_lines ns VisEdge.to _ (outgoing nodeId es));
    simpl; [tauto|].
  destruct (relation_lines ns VisEdge.from _ (incoming nodeId es));
    simpl; tauto.
Qed.

(** A search with a keyword, step by step. *)
Lemma searchEntity_keyword {B : JsString.Builtins} (value : string) (w : World) (ns : NodeSet) :
  well_formed w = true ->
  JsString.truthy (keyword_of value) = true ->
  nodes w = Some ns ->
  searchEntity value w =
  let w1 := set_nodes (Some (map (highlight (keyword_of value)) ns)) w in
  match map VisNode.id (filter (matches (keyword_of value)) ns), network w with
  | [found], Some _ =>
      (emit (NetworkFocus found) ;; showEntityDetails found) w1
  | _, _ => (Ret tt, w1)
  end.
Proof.
  intros Hwf Hk Hns. unfold searchEntity. rewrite Hk. simpl.
  unfold bind at 1, read at 1. rewrite Hns.
  rewrite forEach_highlight by (eapply well_formed_nodes; eassumption).
  unfold bind at 1, modify at 1. unfold bind at 1, read at 1. simpl.
  destruct (map VisNode.id (filter (matches (keyword_of value)) ns))
    as [|found [|]]; try reflexivity.
  now destruct (network w).
Qed.

(** A search without keyword, step by step. *)
Lemma searchEntity_blank {B : JsString.Builtins} (value : string) (w : World) :
  well_formed w = true ->
  JsString.truthy (keyword_of value) = false ->
  searchEntity value w =
  (Ret tt, match nodes w with
           | Some ns => set_nodes (Some (map reset ns)) w
           | None => w
           end).
Proof.
  intros Hwf Hk. unfold searchEntity. rewrite Hk. simpl.
  unfold bind, read. destruct (nodes w) as [ns|] eqn:Hns; [|reflexivity].
  rewrite forEach_reset by (eapply well_formed_nodes; eassumption).
  reflexivity.
Qed.

Lemma ascii_trimStart_all_space (s : string) :
  JsString.all_space s = true -> JsString.ascii_trimStart s = "".
Proof.
  induction s as [|c s IH]; simpl; [reflexivity|].
  intros H. apply andb_true_iff in H as [Hc Hs]. rewrite Hc. now apply IH.
Qed.

(** With the ASCII built-ins, an empty or blank query has no keyword. *)
Lemma keyword_of_blank (value : string) :
  JsString.all_space value = true ->
  keyword_of (B := JsString.ascii) value = "".
Proof.
  intros H. unfold keyword_of. simpl. unfold JsString.ascii_trim.
  now rewrite ascii_trimStart_all_space.
Qed.

(** The fields a search never writes. *)
Lemma highlight_keeps {B : JsString.Builtins} (keyword : string) (n : VisNode.t) :
  VisNode.id (highlight keyword n) = VisNode.id n
  /\ VisNode.label (highlight keyword n) = VisNode.label n
  /\ VisNode.type (highlight keyword n) = VisNode.type n
  /\ VisNode.description (highlight keyword n) = VisNode.description n.
Proof. unfold highlight. now destruct (matches keyword n). Qed.

(** C4, as amended: for every node of the store and every query whose
    trimmed, lower-cased form (the keyword) is not empty, the node matches
    if and only if the keyword occurs in its lower-cased label or in its
    lower-cased description when it has a non-empty one; the search leaves every
    matching node with the highlight colour and border width 4, and every
    other node with the colour of its type and the default border width. *)
Theorem C4_search_repaints_every_node {B : JsString.Builtins}
    (value : string) (w : World) (ns : NodeSet) :
  well_formed w = true ->
  JsString.truthy (keyword_of value) = true ->
  nodes w = Some ns ->
  let keyword := keyword_of value in
  nodes (exec (searchEntity value) w) = Some (map (highlight keyword) ns)
  /\ forall n, In n ns ->
       (matches keyword n = true <->
          substring keyword (JsString.toLowerCase (VisNode.label n))
          \/ exists d, VisNode.description n = Some d
                       /\ d <> EmptyString
                       /\ substring keyword (JsString.toLowerCase d))
       /\ (matches keyword n = true ->
             VisNode.color (highlight keyword n) = highlightColor
             /\ VisNode.shownBorderWidth (highlight keyword n)
                = highlightBorderWidth)
       /\ (matches keyword n = false ->
             VisNode.color (highlight keyword n) = colorFor (VisNode.type n)
             /\ VisNode.shownBorderWidth (highlight keyword n)
                = defaultBorderWidth).
Proof.
  intros Hwf Hk Hns keyword. split.
  - unfold exec. rewrite (@searchEntity_keyword B value w ns Hwf Hk Hns). cbv zeta.
    fold keyword.
    destruct (map VisNode.id (filter (matches keyword) ns)) as [|found [|]];
      try reflexivity.
    destruct (network w); [|reflexivity].
    pose proof (showEntityDetails_frame found
      (exec (emit (NetworkFocus found))
            (set_nodes (Some (map (highlight keyword) ns)) w))) as F.
    cbv zeta in F. destruct F as (_ & F & _). exact F.
  - intros n _. split; [apply matches_iff|].
    unfold highlight. split; intros ->; now split.
Qed.

Lemma C4_search_repaints_every_node_witness :
  nodes (exec (searchEntity " Alice ") Scenario.loaded)
  = Some (map (highlight "alice")
            [toVisNode Scenario.acme; toVisNode Scenario.alice]).
Proof.
  exact (proj1 (@C4_search_repaints_every_node JsString.ascii " Alice " Scenario.loaded
                  [toVisNode Scenario.acme; toVisNode Scenario.alice]
                  eq_refl eq_refl eq_refl)).
Defined.

(** C4 as stated fails: the query [" alice "] is not empty and, lower-cased,
    does not occur in the lower-cased label ["alice"] of a node without
    description; the search highlights the node all the same, because the
    query is trimmed first. *)
Lemma C4_counterexample :
  let value := " alice " in
  let w' := exec (searchEntity value) Scenario.loaded in
  JsString.truthy value = true
  /\ (exists ns n, nodes w' = Some ns
        /\ nodes_get (IdNum 2) ns = Some n
        /\ VisNode.label n = "Alice"
        /\ VisNode.description n = None
        /\ VisNode.color n = highlightColor
        /\ VisNode.borderWidth n = Some highlightBorderWidth)
  /\ ~ substring (JsString.toLowerCase value) (JsString.toLowerCase "Alice").
Proof.
  cbv zeta. split; [reflexivity|]. split.
  - eexists. eexists. split; [vm_compute; reflexivity|].
    split; [vm_compute; reflexivity|]. repeat split.
  - intros H. apply includes_iff in H. vm_compute in H. discriminate.
Qed.

(** What a search without keyword does: every node gets the colour of its
    type, and its border width stays as the last search left it. *)
Lemma search_blank_resets_colors {B : JsString.Builtins} (value : string)
    (w : World) (ns : NodeSet) :
  well_formed w = true ->
  JsString.truthy (keyword_of value) = false ->
  nodes w = Some ns ->
  nodes (exec (searchEntity value) w) = Some (map reset ns)
  /\ forall n, In n ns ->
       VisNode.color (reset n) = colorFor (VisNode.type n)
       /\ VisNode.borderWidth (reset n) = VisNode.borderWidth n.
Proof.
  intros Hwf Hb Hns. split.
  - unfold exec. rewrite searchEntity_blank; [|exact Hwf|exact Hb].
    now rewrite Hns.
  - intros n _. split; reflexivity.
Qed.

(** C3, on the code: after the search ["alice"] has highlighted node 2, the
    empty search gives the node the colour of its type again and leaves its
    border width 4, the highlight width, where the default is 2. *)
Theorem C3_empty_search_keeps_border_width :
  let w := run [Search "alice"; Search ""] Scenario.loaded in
  exists ns n,
    nodes w = Some ns
    /\ nodes_get (IdNum 2) ns = Some n
    /\ VisNode.color n = colorFor (VisNode.type n)
    /\ VisNode.shownBorderWidth n = highlightBorderWidth
    /\ VisNode.shownBorderWidth n <> defaultBorderWidth.
Proof.
  cbv zeta. eexists. eexists.
  split; [vm_compute; reflexivity|].
  split; [vm_compute; reflexivity|].
  repeat split. discriminate.
Qed.

(** ** Neighbours *)

Lemma indexed_from_lower (start : nat) (es : list VisEdge.t) :
  indexed_from start es = true ->
  Forall (fun e => start <= VisEdge.id e) es.
Proof.
  revert start; induction es as [|e r IH]; intros start H; simpl in H.
  - constructor.
  - apply andb_true_iff in H as [He Hr]. apply Nat.eqb_eq in He.
    constructor; [lia|].
    apply IH in Hr. eapply Forall_impl; [|exact Hr]. simpl. intros; lia.
Qed.

(** A set whose identifiers are the indices is in ascending order of
    identifier. *)
Lemma indexed_from_sorted (start : nat) (es : list VisEdge.t) :
  indexed_from start es = true ->
  StronglySorted lt (map VisEdge.id es).
Proof.
  revert start; induction es as [|e r IH]; intros start H; simpl in *.
  - constructor.
  - apply andb_true_iff in H as [He Hr]. apply Nat.eqb_eq in He.
    constructor; [now apply IH with (S start)|].
    apply indexed_from_lower in Hr. apply Forall_map.
    eapply Forall_impl; [|exact Hr]. simpl. intros; lia.
Qed.

Lemma filter_sorted (f : VisEdge.t -> bool) (es : list VisEdge.t) :
  StronglySorted lt (map VisEdge.id es) ->
  StronglySorted lt (map VisEdge.id (filter f es)).
Proof.
  induction es as [|e r IH]; simpl; intros H; [constructor|].
  inversion H as [|? ? Hr Hall]; subst.
  destruct (f e); simpl; [|now apply IH].
  constructor; [now apply IH|].
  rewrite Forall_forall in Hall. rewrite Forall_forall.
  intros x Hx. apply in_map_iff in Hx as (y & <- & Hy).
  apply Hall, in_map. apply filter_In in Hy. apply Hy.
Qed.

Lemma filter_filter_or (f g : VisEdge.t -> bool) (es : list VisEdge.t) :
  filter f (filter (fun e => f e || g e) es) = filter f es.
Proof.
  induction es as [|e r IH]; simpl; [reflexivity|].
  destruct (f e) eqn:Ef; simpl.
  - now rewrite Ef, IH.
  - destruct (g e); simpl; [rewrite Ef|]; exact IH.
Qed.

Lemma filter_filter_or_r (f g : VisEdge.t -> bool) (es : list VisEdge.t) :
  filter g (filter (fun e => f e || g e) es) = filter g es.
Proof.
  induction es as [|e r IH]; simpl; [reflexivity|].
  destruct (f e) eqn:Ef, (g e) eqn:Eg; simpl; rewrite ?Eg, IH; reflexivity.
Qed.

Lemma outgoing_eq (nodeId : Id) (es : EdgeSet) :
  outgoing nodeId es = filter (fun e => Id_eqb (VisEdge.from e) nodeId) es.
Proof. unfold outgoing, connectedEdges, get_filter. apply filter_filter_or. Qed.

Lemma incoming_eq (nodeId : Id) (es : EdgeSet) :
  incoming nodeId es = filter (fun e => Id_eqb (VisEdge.to e) nodeId) es.
Proof.
  unfold incoming, connectedEdges, get_filter. apply filter_filter_or_r.
Qed.

(** C5, as amended: for every node id, the outgoing sequence holds exactly
    the edges with source = id and the incoming sequence exactly the edges
    with target = id, so no edge touching the id is omitted; each sequence
    is in ascending order of edge id; and an edge is in both sequences
    exactly when it is a self-loop on the id. *)
Theorem C5_neighbors_cover_and_share_self_loops (nodeId : Id) (es : EdgeSet) :
  indexed_from 0 es = true ->
  let out := fst (neighbors nodeId es) in
  let inc := snd (neighbors nodeId es) in
  (forall e, In e out <-> In e es /\ VisEdge.from e = nodeId)
  /\ (forall e, In e inc <-> In e es /\ VisEdge.to e = nodeId)
  /\ (forall e, In e es -> VisEdge.from e = nodeId \/ VisEdge.to e = nodeId ->
        In e out \/ In e inc)
  /\ (forall e, In e out /\ In e inc <->
        In e es /\ VisEdge.from e = nodeId /\ VisEdge.to e = nodeId)
  /\ StronglySorted lt (map VisEdge.id out)
  /\ StronglySorted lt (map VisEdge.id inc).
Proof.
  intros Hix out inc. subst out inc. simpl.
  rewrite outgoing_eq, incoming_eq.
  assert (Ho : forall e,
    In e (filter (fun e => Id_eqb (VisEdge.from e) nodeId) es)
    <-> In e es /\ VisEdge.from e = nodeId).
  { intros e. now rewrite filter_In, Id_eqb_eq. }
  assert (Hi : forall e,
    In e (filter (fun e => Id_eqb (VisEdge.to e) nodeId) es)
    <-> In e es /\ VisEdge.to e = nodeId).
  { intros e. now rewrite filter_In, Id_eqb_eq. }
  split; [exact Ho|]. split; [exact Hi|]. split.
  { intros e He [H|H]; [left; apply Ho | right; apply Hi]; tauto. }
  split.
  { intros e. rewrite Ho, Hi. tauto. }
  split; apply filter_sorted; eapply indexed_from_sorted; eassumption.
Qed.

Lemma C5_neighbors_cover_and_share_self_loops_witness :
  StronglySorted lt
    (map VisEdge.id
       (fst (neighbors (IdNum 1) (mapi toVisEdge [Scenario.employs])))).
Proof.
  exact (proj1 (proj2 (proj2 (proj2 (proj2
    (@C5_neighbors_cover_and_share_self_loops (IdNum 1)
       (mapi toVisEdge [Scenario.employs]) eq_refl)))))).
Defined.

(** C5 as stated fails: an edge from node 1 to node 1 is in the outgoing
    and in the incoming sequence of node 1, so the two overlap. *)
Lemma C5_counterexample :
  let e := VisEdge.mk 0 (IdNum 1) (IdNum 1) "owns" "owns" in
  indexed_from 0 Scenario.self_loop = true
  /\ In e (fst (neighbors (IdNum 1) Scenario.self_loop))
  /\ In e (snd (neighbors (IdNum 1) Scenario.self_loop)).
Proof. cbv zeta. split; [reflexivity|]. split; left; reflexivity. Qed.

(** ** Before the first load *)

(** C10: while [nodes], [network] and [graphData] are unset, a search with
    any query and a fit return without throwing and leave the world as it
    is; an export returns without throwing, downloads nothing and changes
    no global and no DOM field: its only effect is the alert. *)
Theorem C10_entry_points_before_first_load {B : JsString.Builtins} (w : World) :
  nodes w = None -> network w = None -> graphData w = None ->
  (forall value, searchEntity value w = (Ret tt, w))
  /\ fitGraph w = (Ret tt, w)
  /\ exists w', exportGraph w = (Ret tt, w')
       /\ globals w' = globals w /\ dom w' = dom w /\ pending w' = pending w
       /\ trace w' = trace w ++ [Alert "请先加载图谱"]
       /\ count is_download (trace w') = count is_download (trace w).
Proof.
  intros Hn Hnet Hg. split; [|split].
  - intros value. unfold searchEntity.
    destruct (negb (JsString.truthy (keyword_of value)));
      unfold bind, read; cbv beta; now rewrite Hn.
  - unfold fitGraph, bind, read. cbv beta. now rewrite Hnet.
  - unfold exportGraph, bind, read. cbv beta. rewrite Hg. eexists. split; [reflexivity|].
    simpl. repeat split. unfold count.
    rewrite filter_app. simpl. now rewrite app_nil_r.
Qed.

Lemma C10_entry_points_before_first_load_witness :
  searchEntity "alice" initial = (Ret tt, initial)
  /\ fitGraph initial = (Ret tt, initial).
Proof.
  pose proof (@C10_entry_points_before_first_load JsString.ascii initial
                eq_refl eq_refl eq_refl) as H.
  split; [exact (proj1 H "alice") | exact (proj1 (proj2 H))].
Defined.

(** ** Loading *)

Lemma toVisNode_ids (ns : list RawNode.t) :
  map VisNode.id (map toVisNode ns) = map RawNode.id ns.
Proof. rewrite map_map. apply map_ext. reflexivity. Qed.

(** Edge identifiers are the positions in the export. *)
Lemma mapi_from_ids (start : nat) (es : list RawEdge.t) :
  map VisEdge.id (mapi_from toVisEdge start es) = seq start (List.length es).
Proof.
  revert start; induction es as [|e r IH]; intros start; simpl.
  - reflexivity.
  - now rewrite IH.
Qed.

Lemma mapi_from_indexed (start : nat) (es : list RawEdge.t) :
  indexed_from start (mapi_from toVisEdge start es) = true.
Proof.
  revert start; induction es as [|e r IH]; intros start; simpl.
  - reflexivity.
  - now rewrite Nat.eqb_refl, IH.
Qed.

Lemma mapi_from_nth (start i : nat) (es : list RawEdge.t) (e : RawEdge.t) :
  nth_error es i = Some e ->
  nth_error (mapi_from toVisEdge start es) i = Some (toVisEdge (start + i) e).
Proof.
  revert start i; induction es as [|x r IH]; intros start [|i] H;
    simpl in *; try discriminate.
  - inversion H. now rewrite Nat.add_0_r.
  - rewrite (IH (S start) i H). do 2 f_equal. lia.
Qed.

Lemma mapi_length (es : list RawEdge.t) :
  List.length (mapi toVisEdge es) = List.length es.
Proof.
  unfold mapi. rewrite <- (length_map VisEdge.id), mapi_from_ids.
  apply length_seq.
Qed.

(** The node set of an export with distinct identifiers is built whole. *)
Lemma new_NodeSet_distinct (ns : list RawNode.t) :
  distinct_idsb (map RawNode.id ns) = true ->
  new_NodeSet (map toVisNode ns) = inr (map toVisNode ns).
Proof.
  intros H. unfold new_NodeSet, new_DataSet.
  rewrite (@add_distinct _ _ Id_eqb VisNode.id Id_eqb_eq show_Id
             (map toVisNode ns) []).
  - reflexivity.
  - simpl. rewrite toVisNode_ids. now apply distinct_idsb_NoDup.
Qed.

(** The edge set is always built whole: the indices are distinct. *)
Lemma new_EdgeSet_mapi (es : list RawEdge.t) :
  new_EdgeSet (mapi toVisEdge es) = inr (mapi toVisEdge es).
Proof.
  unfold new_EdgeSet, new_DataSet.
  rewrite (@add_distinct _ _ Nat.eqb VisEdge.id Nat.eqb_eq _
             (mapi toVisEdge es) []).
  - reflexivity.
  - simpl. unfold mapi. rewrite mapi_from_ids. apply seq_NoDup.
Qed.

Lemma valid_export_fields (result : Payload.t) ns es :
  valid_export result = true ->
  Payload.nodes result = Some ns -> Payload.edges result = Some es ->
  Payload.success result = true /\ distinct_idsb (map RawNode.id ns) = true.
Proof.
  unfold valid_export. intros H Hn He. rewrite Hn, He in H.
  now apply andb_true_iff in H.
Qed.

(** What the answer with a valid export leaves, whatever was there. *)
Lemma loadGraph_resume_valid (env : Env) (result : Payload.t) (w : World)
    (ns : list RawNode.t) (es : list RawEdge.t) :
  vis_loaded env = true ->
  valid_export result = true ->
  Payload.nodes result = Some ns ->
  Payload.edges result = Some es ->
  let w' := exec (loadGraph_resume env (Resolved result)) w in
  nodes w' = Some (map toVisNode ns)
  /\ edges w' = Some (mapi toVisEdge es)
  /\ graphData w' = Some result
  /\ nodeCount (dom w') = Some (count_or_0 (Payload.nodes_count result))
  /\ edgeCount (dom w') = Some (count_or_0 (Payload.edges_count result))
  /\ typeCount (dom w') = Some (distinct (map RawNode.type ns)).
Proof.
  intros Hvis Hvalid Hn He.
  destruct (@valid_export_fields result ns es Hvalid Hn He) as [Hs Hd].
  unfold exec, loadGraph_resume, loadGraph_try, try_catch, bind, modify,
    construct, updateStats, initNetwork, read, lift, ret, write_dom, emit,
    modify, hideLoading, ret.
  cbv beta zeta. rewrite Hs, Hn, He, Hvis. simpl.
  rewrite (@new_NodeSet_distinct ns Hd). simpl.
  rewrite new_EdgeSet_mapi. simpl.
  destruct (network w); simpl; [repeat split|].
  destruct (network_ctor env); simpl; repeat split.
Qed.

Lemma exec_loadGraph (env : Env) (o : FetchOutcome) (w : World) :
  exec (loadGraph env o) w
  = exec (loadGraph_resume env o) (exec loadGraph_start w).
Proof. reflexivity. Qed.

(** C1, as amended: for every loaded export, load keeps every edge of the
    export, whether or not its source and target are among the nodes of
    the export: the edge store holds one edge per record, in the order of
    the export, the record at position [i] under the identifier [i]. *)
Theorem C1_load_keeps_every_edge (env : Env) (result : Payload.t) (w : World)
    (ns : list RawNode.t) (es : list RawEdge.t) :
  vis_loaded env = true ->
  valid_export result = true ->
  Payload.nodes result = Some ns ->
  Payload.edges result = Some es ->
  let w' := exec (loadGraph env (Resolved result)) w in
  nodes w' = Some (map toVisNode ns)
  /\ edges w' = Some (mapi toVisEdge es)
  /\ List.length (mapi toVisEdge es) = List.length es
  /\ forall i e, nth_error es i = Some e ->
       nth_error (mapi toVisEdge es) i = Some (toVisEdge i e).
Proof.
  intros Hvis Hvalid Hn He w'. subst w'. rewrite exec_loadGraph.
  destruct (@loadGraph_resume_valid env result (exec loadGraph_start w)
              ns es Hvis Hvalid Hn He) as (E1 & E2 & _).
  repeat split; [exact E1 | exact E2 | apply mapi_length |].
  intros i e H. exact (mapi_from_nth 0 i es H).
Qed.

Lemma C1_load_keeps_every_edge_witness :
  edges (exec (loadGraph good_env (Resolved Scenario.export)) initial)
  = Some (mapi toVisEdge [Scenario.employs]).
Proof.
  exact (proj1 (proj2 (@C1_load_keeps_every_edge good_env Scenario.export
    initial [Scenario.acme; Scenario.alice] [Scenario.employs]
    eq_refl eq_refl eq_refl eq_refl))).
Defined.

(** C1 as stated fails: loading the 2-node snapshot whose one edge starts
    at the missing node 99 yields 2 nodes and 1 edge, the dangling one. *)
Lemma C1_counterexample :
  let w := exec (loadGraph good_env (Resolved Scenario.dangling)) initial in
  exists ns e,
    nodes w = Some ns
    /\ edges w = Some [e]
    /\ List.length ns = 2
    /\ VisEdge.from e = IdNum 99
    /\ nodes_get (IdNum 99) ns = None.
Proof.
  cbv zeta. eexists. eexists.
  split; [vm_compute; reflexivity|].
  split; [vm_compute; reflexivity|].
  repeat split.
Qed.

(** A refusal of the server is shown and changes none of the globals. *)
Lemma refused_answer_keeps_globals (env : Env) (result : Payload.t) (w : World) :
  Payload.success result = false ->
  let w' := exec (loadGraph_resume env (Resolved result)) w in
  globals w' = globals w
  /\ trace w' = trace w
       ++ [Alert ("加载失败: "
                    ++ JsString.or_else (Payload.error result) "未知错误")].
Proof.
  intros Hs. unfold exec, loadGraph_resume, loadGraph_try, try_catch, bind,
    modify, emit, hideLoading, ret, modify.
  cbv beta. rewrite Hs. simpl. split; reflexivity.
Qed.

(** A request that fails is reported and changes none of the globals. *)
Lemma rejected_answer_keeps_globals (env : Env) (e : Exn) (w : World) :
  let w' := exec (loadGraph_resume env (Rejected e)) w in
  globals w' = globals w
  /\ trace w' = trace w
       ++ [ConsoleError "加载图谱失败:"; Alert ("加载失败: " ++ message e)].
Proof.
  unfold exec, loadGraph_resume, loadGraph_try, try_catch, bind, throw,
    loadGraph_catch, modify, emit, hideLoading, ret, modify, bind.
  simpl. split; [reflexivity|]. now rewrite <- app_assoc.
Qed.

(** C6, on the code: the page shows the snapshot of [Scenario.export]; a
    reload is answered by a document that claims success and has no
    [nodes].  The error is shown, the two stores and the network are as
    before, and [graphData] now holds the malformed document.  (A refusal
    of the server, in the same place, leaves [graphData] as it was.) *)
Theorem C6_malformed_answer_replaces_graphData :
  let w := Scenario.loaded in
  let w' := run [Reload; Answer good_env (Resolved Scenario.malformed)] w in
  graphData w = Some Scenario.export
  /\ graphData (run [Reload; Answer good_env (Resolved Scenario.refused)] w)
     = Some Scenario.export
  /\ graphData w' = Some Scenario.malformed
  /\ nodes w' = nodes w /\ edges w' = edges w /\ network w' = network w
  /\ trace w' = trace w
       ++ [Fetch "/api/knowledge-graph/export";
           ConsoleError "加载图谱失败:";
           Alert ("加载失败: "
                    ++ "Cannot read properties of undefined (reading 'map')")].
Proof. evaluate. Qed.

(** With a document in [graphData], the export downloads that document. *)
Lemma exportGraph_downloads (w : World) (doc : Payload.t) :
  graphData w = Some doc ->
  let w' := exec exportGraph w in
  trace w' = trace w ++ [Download "knowledge_graph.json" doc]
  /\ globals w' = globals w /\ dom w' = dom w.
Proof.
  intros H. unfold exec, exportGraph, bind, read. cbv beta. rewrite H.
  simpl. unfold globals. simpl. now rewrite H.
Qed.

(** C7: for every valid export, an export after the load downloads the
    very document that was loaded, hence a document of the consumed format
    with the same nodes and edges; and the identifiers the load gives the
    edges are their positions in the export, a function of the input
    order. *)
Theorem C7_export_after_load_is_the_loaded_document
    (env : Env) (result : Payload.t) (w : World)
    (ns : list RawNode.t) (es : list RawEdge.t) :
  vis_loaded env = true ->
  valid_export result = true ->
  Payload.nodes result = Some ns ->
  Payload.edges result = Some es ->
  let w1 := exec (loadGraph env (Resolved result)) w in
  let w2 := exec exportGraph w1 in
  (exists doc,
     trace w2 = trace w1 ++ [Download "knowledge_graph.json" doc]
     /\ doc = result
     /\ Payload.nodes doc = Some ns /\ Payload.edges doc = Some es)
  /\ globals w2 = globals w1
  /\ edges w1 = Some (mapi toVisEdge es)
  /\ map VisEdge.id (mapi toVisEdge es) = seq 0 (List.length es).
Proof.
  intros Hvis Hvalid Hn He w1 w2. subst w2 w1. rewrite exec_loadGraph.
  destruct (@loadGraph_resume_valid env result (exec loadGraph_start w)
              ns es Hvis Hvalid Hn He) as (_ & E2 & E3 & _).
  destruct (@exportGraph_downloads _ result E3) as (T & G & _).
  split; [|split; [|split]].
  - exists result. repeat split; assumption.
  - exact G.
  - exact E2.
  - apply mapi_from_ids.
Qed.

Lemma C7_export_after_load_is_the_loaded_document_witness :
  let w1 := exec (loadGraph good_env (Resolved Scenario.export)) initial in
  exists doc,
    trace (exec exportGraph w1)
    = trace w1 ++ [Download "knowledge_graph.json" doc]
    /\ doc = Scenario.export
    /\ Payload.nodes doc = Some [Scenario.acme; Scenario.alice]
    /\ Payload.edges doc = Some [Scenario.employs].
Proof.
  exact (proj1 (@C7_export_after_load_is_the_loaded_document good_env
    Scenario.export initial [Scenario.acme; Scenario.alice]
    [Scenario.employs] eq_refl eq_refl eq_refl eq_refl)).
Defined.

(** ** Statistics *)

(** [distinct] counts the different strings of a list. *)
Lemma distinct_counts (l : list string) :
  exists types, NoDup types
    /\ (forall t, In t types <-> In t l)
    /\ distinct l = List.length types.
Proof.
  exists (nodup string_dec l). split; [apply NoDup_nodup|].
  split; [intros t; apply nodup_In | reflexivity].
Qed.

(** C8, as amended: on every successful load the displayed node count is
    the [nodes_count] field of the export and the displayed edge count its
    [edges_count] field, 0 standing for an absent field; the displayed type
    count is recomputed: it is the number of distinct types of the loaded
    nodes. *)
Theorem C8_statistics_after_load (env : Env) (result : Payload.t) (w : World)
    (ns : list RawNode.t) (es : list RawEdge.t) :
  vis_loaded env = true ->
  valid_export result = true ->
  Payload.nodes result = Some ns ->
  Payload.edges result = Some es ->
  let w' := exec (loadGraph env (Resolved result)) w in
  nodeCount (dom w') = Some (count_or_0 (Payload.nodes_count result))
  /\ edgeCount (dom w') = Some (count_or_0 (Payload.edges_count result))
  /\ exists types, NoDup types
       /\ (forall t, In t types <-> exists n, In n ns /\ RawNode.type n = t)
       /\ typeCount (dom w') = Some (List.length types).
Proof.
  intros Hvis Hvalid Hn He w'. subst w'. rewrite exec_loadGraph.
  destruct (@loadGraph_resume_valid env result (exec loadGraph_start w)
              ns es Hvis Hvalid Hn He) as (_ & _ & _ & E4 & E5 & E6).
  split; [exact E4|]. split; [exact E5|].
  destruct (distinct_counts (map RawNode.type ns)) as (types & Hnd & Hin & Hlen).
  exists types. split; [exact Hnd|]. split.
  - intros t. rewrite Hin, in_map_iff. split; intros (n & H1 & H2); eauto.
  - now rewrite E6, Hlen.
Qed.

Lemma C8_statistics_after_load_witness :
  nodeCount
    (dom (exec (loadGraph good_env (Resolved Scenario.dangling)) initial))
  = Some (count_or_0 (Payload.nodes_count Scenario.dangling)).
Proof.
  exact (proj1 (@C8_statistics_after_load good_env Scenario.dangling initial
    [Scenario.acme; Scenario.alice]
    [RawEdge.mk (IdNum 99) (IdNum 2) "雇用" None]
    eq_refl eq_refl eq_refl eq_refl)).
Defined.

(** C8 as stated fails: the export of the scenario carries no counts; after
    its load the page shows 0 nodes and 0 edges, with 2 nodes and 1 edge in
    the stores. *)
Lemma C8_counterexample :
  let w := exec (loadGraph good_env (Resolved Scenario.export)) initial in
  exists ns es,
    nodes w = Some ns /\ edges w = Some es
    /\ List.length ns = 2 /\ List.length es = 1
    /\ nodeCount (dom w) = Some 0%Z
    /\ edgeCount (dom w) = Some 0%Z.
Proof.
  cbv zeta. eexists. eexists.
  split; [vm_compute; reflexivity|].
  split; [vm_compute; reflexivity|].
  evaluate.
Qed.

(** ** Reloads in flight *)

(** A successful answer is stored, whatever else is pending. *)
Lemma answer_sets_graphData (env : Env) (result : Payload.t) (w : World) :
  Payload.success result = true ->
  let w' := exec (loadGraph_resume env (Resolved result)) w in
  graphData w' = Some result /\ pending w' = pred (pending w).
Proof.
  intros Hs.
  unfold exec, loadGraph_resume, loadGraph_try, loadGraph_catch, try_catch,
    bind, modify, construct, updateStats, initNetwork, read, lift, ret,
    write_dom, emit, modify, hideLoading, throw, ret.
  cbv beta zeta. rewrite Hs. simpl.
  destruct (Payload.nodes result); simpl; [|tauto].
  destruct (Payload.edges result); simpl; [|tauto].
  destruct (vis_loaded env); simpl; [|tauto].
  destruct (new_NodeSet _); simpl; [tauto|].
  destruct (new_EdgeSet _); simpl; [tauto|].
  destruct (network w); simpl; [tauto|].
  destruct (network_ctor env); simpl; tauto.
Qed.

(** C9, as amended: the loader keeps no record of a reload in flight.
    Every reload request sends its own request and adds one to the reloads
    in flight, whether or not one is pending, and touches no global; every
    answer that carries a valid export replaces the snapshot (node store,
    edge store and cached export) when it arrives, so of two pending
    reloads the one answered last decides the snapshot. *)
Theorem C9_every_reload_is_sent (w : World) :
  (let w' := exec loadGraph_start w in
   pending w' = S (pending w)
   /\ trace w' = trace w ++ [Fetch "/api/knowledge-graph/export"]
   /\ globals w' = globals w)
  /\ forall env r1 r2 ns1 es1 ns2 es2,
       vis_loaded env = true ->
       valid_export r1 = true ->
       Payload.nodes r1 = Some ns1 -> Payload.edges r1 = Some es1 ->
       valid_export r2 = true ->
       Payload.nodes r2 = Some ns2 -> Payload.edges r2 = Some es2 ->
       let w2 := exec loadGraph_start (exec loadGraph_start w) in
       let w3 := exec (loadGraph_resume env (Resolved r1)) w2 in
       let w4 := exec (loadGraph_resume env (Resolved r2)) w3 in
       pending w2 = S (S (pending w))
       /\ (nodes w3 = Some (map toVisNode ns1)
           /\ edges w3 = Some (mapi toVisEdge es1)
           /\ graphData w3 = Some r1
           /\ pending w3 = S (pending w))
       /\ (nodes w4 = Some (map toVisNode ns2)
           /\ edges w4 = Some (mapi toVisEdge es2)
           /\ graphData w4 = Some r2
           /\ pending w4 = pending w).
Proof.
  split; [cbv zeta; repeat split|].
  intros env r1 r2 ns1 es1 ns2 es2 Hvis V1 N1 E1 V2 N2 E2 w2 w3 w4.
  destruct (@valid_export_fields r1 ns1 es1 V1 N1 E1) as [S1 _].
  destruct (@valid_export_fields r2 ns2 es2 V2 N2 E2) as [S2 _].
  destruct (@loadGraph_resume_valid env r1 w2 ns1 es1 Hvis V1 N1 E1)
    as (A1 & A2 & A3 & _).
  destruct (@loadGraph_resume_valid env r2 w3 ns2 es2 Hvis V2 N2 E2)
    as (B1 & B2 & B3 & _).
  destruct (@answer_sets_graphData env r1 w2 S1) as [_ P3].
  destruct (@answer_sets_graphData env r2 w3 S2) as [_ P4].
  fold w3 in A1, A2, A3, P3, P4. fold w4 in B1, B2, B3, P4.
  assert (P2 : pending w2 = S (S (pending w))) by reflexivity.
  rewrite P2 in P3. simpl in P3. rewrite P3 in P4. simpl in P4.
  repeat split; assumption.
Qed.

(** C9 as stated fails: a reload requested while the reload of the page
    load is pending is sent as well; two reloads are then in flight, and
    both answers replace the snapshot in turn. *)
Lemma C9_counterexample :
  let w := run [Reload] (exec loadGraph_start initial) in
  let w' := run [Answer good_env (Resolved Scenario.export);
                 Answer good_env (Resolved Scenario.dangling)] w in
  reachable w
  /\ pending w = 2
  /\ count is_fetch (trace w) = 2
  /\ trace w' = trace w ++ [NetworkNew; NetworkSetData]
  /\ graphData w' = Some Scenario.dangling.
Proof.
  cbv zeta. split.
  - eapply reach_step; [apply reach_load|].
    exact (@step_intro JsString.ascii (exec loadGraph_start initial) Reload eq_refl).
  - evaluate.
Qed.

Lemma C9_every_reload_is_sent_witness :
  let w2 := exec loadGraph_start (exec loadGraph_start initial) in
  let w3 := exec (loadGraph_resume good_env (Resolved Scenario.export)) w2 in
  let w4 := exec (loadGraph_resume good_env (Resolved Scenario.dangling)) w3 in
  nodes w4 = Some (map toVisNode [Scenario.acme; Scenario.alice])
  /\ edges w4
     = Some (mapi toVisEdge [RawEdge.mk (IdNum 99) (IdNum 2) "雇用" None])
  /\ graphData w4 = Some Scenario.dangling
  /\ pending w4 = pending initial.
Proof.
  exact (proj2 (proj2 (proj2 (@C9_every_reload_is_sent initial) good_env
    Scenario.export Scenario.dangling
    [Scenario.acme; Scenario.alice] [Scenario.employs]
    [Scenario.acme; Scenario.alice]
    [RawEdge.mk (IdNum 99) (IdNum 2) "雇用" None]
    eq_refl eq_refl eq_refl eq_refl eq_refl eq_refl eq_refl))).
Defined.

(** ** The invariant of the page *)

Lemma well_formed_ext (w w' : World) :
  nodes w' = nodes w -> edges w' = edges w ->
  well_formed w' = well_formed w.
Proof. unfold well_formed. now intros -> ->. Qed.

Lemma well_formed_set_nodes (f : VisNode.t -> VisNode.t) (w : World)
    (ns : NodeSet) :
  (forall n, VisNode.id (f n) = VisNode.id n) ->
  well_formed w = true -> nodes w = Some ns ->
  well_formed (set_nodes (Some (map f ns)) w) = true.
Proof.
  unfold well_formed. intros Hf H Hns. rewrite Hns in H. simpl.
  rewrite map_map. rewrite (map_ext _ VisNode.id) by exact Hf. exact H.
Qed.

Lemma new_NodeSet_returns (items : list VisNode.t) (ns : NodeSet) :
  new_NodeSet items = inr ns -> distinct_idsb (map VisNode.id ns) = true.
Proof.
  intros H. apply distinct_idsb_NoDup.
  apply (@add_returns _ _ Id_eqb VisNode.id Id_eqb_eq show_Id items [] ns H).
  constructor.
Qed.

Lemma loadGraph_resume_well_formed (env : Env) (o : FetchOutcome) (w : World) :
  well_formed w = true ->
  well_formed (exec (loadGraph_resume env o) w) = true.
Proof.
  intros Hwf.
  unfold exec, loadGraph_resume, loadGraph_try, loadGraph_catch, try_catch,
    bind, modify, construct, updateStats, initNetwork, read, lift, ret,
    write_dom, emit, modify, hideLoading, throw, ret.
  cbv beta zeta. destruct o as [e|result]; simpl; [exact Hwf|].
  destruct (Payload.success result); simpl; [|exact Hwf].
  destruct (Payload.nodes result) as [rn|]; simpl; [|exact Hwf].
  destruct (Payload.edges result) as [re|]; simpl; [|exact Hwf].
  destruct (vis_loaded env); simpl; [|exact Hwf].
  destruct (new_NodeSet (map toVisNode rn)) as [x|ns] eqn:E; simpl;
    [exact Hwf|].
  rewrite new_EdgeSet_mapi. simpl.
  assert (G : distinct_idsb (map VisNode.id ns)
              && indexed_from 0 (mapi toVisEdge re) = true).
  { rewrite (new_NodeSet_returns _ E). apply mapi_from_indexed. }
  destruct (network w); simpl; [exact G|].
  destruct (network_ctor env); simpl; exact G.
Qed.

Lemma searchEntity_well_formed {B : JsString.Builtins} (value : string) (w : World) :
  well_formed w = true ->
  well_formed (exec (searchEntity value) w) = true.
Proof.
  intros Hwf. unfold exec.
  destruct (JsString.truthy (keyword_of value)) eqn:Hk.
  - destruct (nodes w) as [ns|] eqn:Hns.
    + rewrite (@searchEntity_keyword B value w ns Hwf Hk Hns). cbv zeta.
      assert (G : well_formed
                    (set_nodes (Some (map (highlight (keyword_of value)) ns)) w)
                  = true).
      { apply well_formed_set_nodes; try assumption.
        intros n. apply highlight_keeps. }
      destruct (map VisNode.id (filter (matches (keyword_of value)) ns))
        as [|found [|]]; try exact G.
      destruct (network w); [|exact G].
      pose proof (showEntityDetails_frame found
        (exec (emit (NetworkFocus found))
              (set_nodes (Some (map (highlight (keyword_of value)) ns)) w)))
        as F.
      cbv zeta in F. destruct F as (_ & F1 & F2 & _).
      rewrite <- G. apply well_formed_ext; [exact F1 | exact F2].
    + unfold searchEntity. rewrite Hk. simpl. unfold bind, read. cbv beta.
      rewrite Hns. exact Hwf.
  - rewrite (@searchEntity_blank B value w Hwf Hk). simpl.
    destruct (nodes w) as [ns|] eqn:Hns; [|exact Hwf].
    apply well_formed_set_nodes; try assumption. reflexivity.
Qed.

Lemma handler_well_formed {B : JsString.Builtins} (a : Action) (w : World) :
  well_formed w = true -> well_formed (exec (handler a) w) = true.
Proof.
  intros Hwf. destruct a as [|env o|value|ids|ids| |]; simpl handler.
  - exact Hwf.
  - now apply loadGraph_resume_well_formed.
  - now apply searchEntity_well_formed.
  - destruct ids as [|i r]; [exact Hwf|]. simpl.
    pose proof (showEntityDetails_frame i w) as F. cbv zeta in F.
    destruct F as (_ & F1 & F2 & _).
    rewrite <- Hwf. apply well_formed_ext; assumption.
  - destruct ids as [|i r]; exact Hwf.
  - unfold exec, fitGraph, bind, read. cbv beta.
    destruct (network w); exact Hwf.
  - unfold exec, exportGraph, bind, read. cbv beta.
    destruct (graphData w); exact Hwf.
Qed.

(** Every world the page can be in has well-formed stores. *)
Lemma reachable_well_formed {B : JsString.Builtins} (w : World) :
  reachable w -> well_formed w = true.
Proof.
  induction 1 as [|w w' a _ IH Hstep].
  - reflexivity.
  - destruct Hstep. now apply handler_well_formed.
Qed.

(** * Further properties of the script *)

(** ** Loading: errors *)

Lemma count_app (p : Event -> bool) (l1 l2 : list Event) :
  count p (l1 ++ l2) = count p l1 + count p l2.
Proof. unfold count. now rewrite filter_app, length_app. Qed.

(** A set is only built from items with pairwise distinct identifiers. *)
Lemma new_NodeSet_inr (items : list VisNode.t) (ns : NodeSet) :
  new_NodeSet items = inr ns ->
  ns = items /\ distinct_idsb (map VisNode.id items) = true.
Proof.
  intros H.
  destruct (@add_returns _ _ Id_eqb VisNode.id Id_eqb_eq show_Id items [] ns H)
    as [E Hnd]; [constructor|].
  simpl in E. subst. split; [reflexivity | now apply distinct_idsb_NoDup].
Qed.

(** The error of [add] names an identifier that is stored already or occurs
    twice among the items. *)
Lemma add_inl (items : list VisNode.t) (ds : NodeSet) (e : Exn) :
  add Id_eqb VisNode.id show_Id items ds = inl e ->
  exists i, In i (map VisNode.id items)
    /\ e = Error ("Cannot add item: item with id " ++ show_Id i
                    ++ " already exists").
Proof.
  revert ds; induction items as [|a r IH]; intros ds H; simpl in H.
  - discriminate.
  - destruct (has Id_eqb VisNode.id (VisNode.id a) ds).
    + inversion H. exists (VisNode.id a). split; [now left | reflexivity].
    + destruct (IH _ H) as (i & Hi & He). exists i. split; [now right | exact He].
Qed.

(** X1: no exception escapes [loadGraph]: whatever the answer, the call
    returns, the reload is no longer pending, and the user sees no alert
    when the load went through and exactly one alert when it did not
    (failed request, refusal, malformed or duplicate-id document, missing
    library, failing network constructor). *)
Theorem loadGraph_reports_every_failure_once
    (env : Env) (o : FetchOutcome) (w : World) :
  let w' := exec (loadGraph_resume env o) w in
  fst (loadGraph_resume env o w) = Ret tt
  /\ pending w' = pred (pending w)
  /\ exists events, trace w' = trace w ++ events
       /\ count is_alert events = if succeeds env o w then 0 else 1.
Proof.
  unfold exec, loadGraph_resume, loadGraph_try, loadGraph_catch, try_catch,
    bind, modify, construct, updateStats, initNetwork, read, lift, ret,
    write_dom, emit, modify, hideLoading, throw, ret, succeeds, valid_export.
  cbv beta zeta. destruct o as [e|result]; simpl.
  { repeat split. eexists. rewrite <- app_assoc. split; reflexivity. }
  destruct (Payload.success result); simpl;
    [|repeat split; eexists; split; reflexivity].
  destruct (Payload.nodes result) as [rn|]; simpl;
    [|repeat split; eexists; rewrite <- app_assoc; split; reflexivity].
  destruct (Payload.edges result) as [re|]; simpl;
    [|repeat split; eexists; rewrite <- app_assoc; split; reflexivity].
  destruct (vis_loaded env); simpl;
    [|rewrite andb_false_r; repeat split; eexists; rewrite <- app_assoc;
      split; reflexivity].
  destruct (new_NodeSet (map toVisNode rn)) as [x|ns] eqn:E; simpl.
  - assert (D : distinct_idsb (map RawNode.id rn) = false).
    { destruct (distinct_idsb (map RawNode.id rn)) eqn:D; [|reflexivity].
      rewrite (new_NodeSet_distinct rn D) in E. discriminate. }
    rewrite D. simpl. repeat split. eexists. rewrite <- app_assoc.
    split; reflexivity.
  - apply new_NodeSet_inr in E as [_ D]. rewrite toVisNode_ids in D.
    rewrite D, new_EdgeSet_mapi. simpl.
    destruct (network w); simpl.
    + repeat split. eexists. split; reflexivity.
    + destruct (network_ctor env); simpl; repeat split; eexists;
        rewrite <- ?app_assoc; split; reflexivity.
Qed.

(** X2: an export in which two nodes share an identifier is turned down as
    a whole: the node store, the edge store and the network stay as they
    were, and the alert names an identifier of the export. *)
Theorem loadGraph_rejects_duplicate_ids
    (env : Env) (result : Payload.t) (w : World)
    (ns : list RawNode.t) (es : list RawEdge.t) :
  vis_loaded env = true ->
  Payload.success result = true ->
  Payload.nodes result = Some ns ->
  Payload.edges result = Some es ->
  distinct_idsb (map RawNode.id ns) = false ->
  let w' := exec (loadGraph_resume env (Resolved result)) w in
  nodes w' = nodes w /\ edges w' = edges w /\ network w' = network w
  /\ exists i, In i (map RawNode.id ns)
       /\ trace w' = trace w
            ++ [ConsoleError "加载图谱失败:";
                Alert ("加载失败: " ++ "Cannot add item: item with id "
                         ++ show_Id i ++ " already exists")].
Proof.
  intros Hvis Hs Hn He Hd.
  unfold exec, loadGraph_resume, loadGraph_try, loadGraph_catch, try_catch,
    bind, modify, construct, updateStats, initNetwork, read, lift, ret,
    write_dom, emit, modify, hideLoading, throw, ret.
  cbv beta zeta. rewrite Hs, Hn, He, Hvis. simpl.
  destruct (new_NodeSet (map toVisNode ns)) as [x|ns'] eqn:E; simpl.
  - apply add_inl in E as (i & Hi & ->). rewrite toVisNode_ids in Hi.
    repeat split. exists i. split; [exact Hi|].
    rewrite <- app_assoc. reflexivity.
  - apply new_NodeSet_inr in E as [_ D]. rewrite toVisNode_ids in D.
    congruence.
Qed.

Lemma loadGraph_rejects_duplicate_ids_witness :
  nodes (exec (loadGraph_resume good_env (Resolved Cases.twins)) Scenario.loaded)
  = nodes Scenario.loaded.
Proof.
  exact (proj1 (@loadGraph_rejects_duplicate_ids good_env Cases.twins
    Scenario.loaded
    [Scenario.acme; RawNode.mk (IdNum 1) "Acme Ltd" "公司/组织" None None] []
    eq_refl eq_refl eq_refl eq_refl eq_refl)).
Defined.

(** ** What a search touches *)

Lemma searchEntity_frame {B : JsString.Builtins} (value : string) (w : World) :
  well_formed w = true ->
  let w' := exec (searchEntity value) w in
  network w' = network w
  /\ nodes w' = option_map (map (repaint value)) (nodes w)
  /\ edges w' = edges w
  /\ graphData w' = graphData w
  /\ pending w' = pending w
  /\ exists events, trace w' = trace w ++ events
       /\ forallb (fun e => is_focus e || is_details e) events = true.
Proof.
  intros Hwf w'. subst w'. unfold repaint.
  destruct (JsString.truthy (keyword_of value)) eqn:Hk.
  - destruct (nodes w) as [ns|] eqn:Hns.
    + set (w1 := set_nodes (Some (map (highlight (keyword_of value)) ns)) w).
      assert (E : exec (searchEntity value) w =
                  match map VisNode.id
                          (filter (matches (keyword_of value)) ns),
                        network w with
                  | [found], Some _ =>
                      exec (showEntityDetails found)
                           (exec (emit (NetworkFocus found)) w1)
                  | _, _ => w1
                  end).
      { unfold exec. rewrite (@searchEntity_keyword B value w ns Hwf Hk Hns).
        cbv zeta. fold w1.
        destruct (map VisNode.id (filter (matches (keyword_of value)) ns))
          as [|found [|]]; try reflexivity.
        destruct (network w); reflexivity. }
      rewrite E. clear E.
      assert (G : network w1 = network w
                  /\ nodes w1 = option_map
                       (map (highlight (keyword_of value))) (Some ns)
                  /\ edges w1 = edges w /\ graphData w1 = graphData w
                  /\ pending w1 = pending w
                  /\ exists events, trace w1 = trace w ++ events
                       /\ forallb (fun e => is_focus e || is_details e) events
                          = true).
      { repeat split. exists []. now rewrite app_nil_r. }
      destruct (map VisNode.id (filter (matches (keyword_of value)) ns))
        as [|found [|]]; try exact G.
      destruct (network w) eqn:Hnet; [|exact G].
      pose proof (showEntityDetails_frame found
                    (exec (emit (NetworkFocus found)) w1)) as F.
      cbv zeta in F. destruct F as (F1 & F2 & F3 & F4 & F5 & F6).
      rewrite F1, F2, F3, F4, F5, F6. simpl. rewrite Hnet.
      repeat split.
      exists [NetworkFocus found; Enter_showEntityDetails found].
      rewrite <- app_assoc. split; reflexivity.
    + unfold exec, searchEntity. rewrite Hk. simpl. unfold bind, read.
      cbv beta. rewrite Hns. simpl. rewrite Hns. repeat split.
      exists []. now rewrite app_nil_r.
  - unfold exec. rewrite (@searchEntity_blank B value w Hwf Hk). simpl.
    destruct (nodes w) as [ns|] eqn:Hns; simpl; rewrite ?Hns;
      repeat split; exists []; now rewrite app_nil_r.
Qed.

Lemma repaint_keeps_data {B : JsString.Builtins} (value : string) (n : VisNode.t) :
  data_of (repaint value n) = data_of n.
Proof.
  unfold repaint, highlight, reset.
  destruct (JsString.truthy (keyword_of value)); [|reflexivity].
  now destruct (matches (keyword_of value) n).
Qed.

(** X3: a search writes display attributes only.  Whatever the query, the
    network handle, the edge store, the cached export and the pending
    reloads are as before, and the node store holds the same nodes in the
    same order with the same id, label, title, type, description and
    source document. *)
Theorem searchEntity_touches_display_only {B : JsString.Builtins} (value : string) (w : World) :
  well_formed w = true ->
  let w' := exec (searchEntity value) w in
  network w' = network w /\ edges w' = edges w
  /\ graphData w' = graphData w /\ pending w' = pending w
  /\ option_map (map data_of) (nodes w') = option_map (map data_of) (nodes w).
Proof.
  intros Hwf w'.
  destruct (@searchEntity_frame B value w Hwf) as (F1 & F2 & F3 & F4 & F5 & _).
  fold w' in F1, F2, F3, F4, F5. repeat split; try assumption.
  rewrite F2. destruct (nodes w) as [ns|]; [|reflexivity]. simpl.
  rewrite map_map. f_equal. apply map_ext. intros n. apply repaint_keeps_data.
Qed.

Lemma searchEntity_touches_display_only_witness :
  edges (exec (searchEntity "alice") Scenario.loaded) = edges Scenario.loaded.
Proof.
  exact (proj1 (proj2 (@searchEntity_touches_display_only JsString.ascii "alice"
                         Scenario.loaded eq_refl))).
Defined.

(** ** How searches compose *)

Lemma matches_repaint {B : JsString.Builtins} (keyword value : string) (n : VisNode.t) :
  matches keyword (repaint value n) = matches keyword n.
Proof.
  unfold repaint, highlight, reset.
  destruct (JsString.truthy (keyword_of value)); [|reflexivity].
  now destruct (matches (keyword_of value) n).
Qed.

Lemma repaint_repaint {B : JsString.Builtins} (v1 v2 : string) (n : VisNode.t) :
  JsString.truthy (keyword_of v2) = true \/ v1 = v2 ->
  repaint v2 (repaint v1 n) = repaint v2 n.
Proof.
  intros H. unfold repaint at 1 3.
  destruct (JsString.truthy (keyword_of v2)) eqn:K2.
  - unfold highlight. rewrite matches_repaint.
    pose proof (repaint_keeps_data v1 n) as D. unfold data_of in D.
    inversion D as [[D1 D2 D3 D4 D5 D6]].
    destruct (matches (keyword_of v2) n); unfold VisNode.set_color_border;
      now rewrite D1, D2, D3, D4, D5, D6.
  - destruct H as [H| ->]; [discriminate|].
    unfold repaint. rewrite K2. reflexivity.
Qed.

Lemma searchEntity_twice {B : JsString.Builtins} (v1 v2 : string) (w : World) :
  well_formed w = true ->
  JsString.truthy (keyword_of v2) = true \/ v1 = v2 ->
  nodes (exec (searchEntity v2) (exec (searchEntity v1) w))
  = nodes (exec (searchEntity v2) w).
Proof.
  intros Hwf H.
  destruct (@searchEntity_frame B v2 w Hwf) as (_ & F & _).
  destruct (@searchEntity_frame B v1 w Hwf) as (_ & F1 & _).
  destruct (@searchEntity_frame B v2 (exec (searchEntity v1) w)
              (searchEntity_well_formed v1 w Hwf)) as (_ & F2 & _).
  rewrite F2, F1, F. destruct (nodes w) as [ns|]; [|reflexivity]. simpl.
  rewrite map_map. f_equal. apply map_ext. intros n.
  now apply repaint_repaint.
Qed.

(** X4: searching is idempotent on the node store: running the same query
    a second time changes no node. *)
Theorem searchEntity_idempotent {B : JsString.Builtins} (value : string) (w : World) :
  well_formed w = true ->
  nodes (exec (searchEntity value) (exec (searchEntity value) w))
  = nodes (exec (searchEntity value) w).
Proof. intros Hwf. apply searchEntity_twice; [exact Hwf | now right]. Qed.

Lemma searchEntity_idempotent_witness :
  nodes (exec (searchEntity "alice") (exec (searchEntity "alice") Scenario.loaded))
  = nodes (exec (searchEntity "alice") Scenario.loaded).
Proof. exact (@searchEntity_idempotent JsString.ascii "alice" Scenario.loaded eq_refl). Defined.

(** X5: a search with a keyword overrides every earlier search: the node
    store after the queries [v1] then [v2] is the node store after [v2]
    alone, whenever [v2] is not empty once trimmed. *)
Theorem searchEntity_last_keyword_wins {B : JsString.Builtins} (v1 v2 : string) (w : World) :
  well_formed w = true ->
  JsString.truthy (keyword_of v2) = true ->
  nodes (exec (searchEntity v2) (exec (searchEntity v1) w))
  = nodes (exec (searchEntity v2) w).
Proof. intros Hwf H. apply searchEntity_twice; [exact Hwf | now left]. Qed.

Lemma searchEntity_last_keyword_wins_witness :
  nodes (exec (searchEntity "acme") (exec (searchEntity "alice") Scenario.loaded))
  = nodes (exec (searchEntity "acme") Scenario.loaded).
Proof.
  exact (@searchEntity_last_keyword_wins JsString.ascii "alice" "acme" Scenario.loaded
           eq_refl eq_refl).
Defined.

Lemma reset_toVisNode (n : RawNode.t) : reset (toVisNode n) = toVisNode n.
Proof. reflexivity. Qed.

(** X6: an empty or blank search right after a load changes nothing: the
    nodes of a fresh snapshot carry the colour of their type already. *)
Theorem blank_search_after_load_is_void {B : JsString.Builtins}
    (env : Env) (result : Payload.t) (w : World)
    (ns : list RawNode.t) (es : list RawEdge.t) (value : string) :
  vis_loaded env = true ->
  valid_export result = true ->
  Payload.nodes result = Some ns ->
  Payload.edges result = Some es ->
  JsString.truthy (keyword_of value) = false ->
  let w1 := exec (loadGraph env (Resolved result)) w in
  searchEntity value w1 = (Ret tt, w1).
Proof.
  intros Hvis Hvalid Hn He Hb w1.
  destruct (@loadGraph_resume_valid env result (exec loadGraph_start w)
              ns es Hvis Hvalid Hn He) as (E1 & E2 & _).
  rewrite <- exec_loadGraph in E1, E2. fold w1 in E1, E2.
  assert (Hwf : well_formed w1 = true).
  { unfold well_formed. rewrite E1, E2, toVisNode_ids.
    destruct (@valid_export_fields result ns es Hvalid Hn He) as [_ ->].
    apply mapi_from_indexed. }
  rewrite searchEntity_blank; [|exact Hwf | exact Hb].
  rewrite E1. f_equal.
  rewrite map_map, (map_ext _ toVisNode) by apply reset_toVisNode.
  rewrite <- E1. now destruct w1.
Qed.

Lemma blank_search_after_load_is_void_witness :
  let w1 := exec (loadGraph good_env (Resolved Scenario.export)) initial in
  searchEntity "  " w1 = (Ret tt, w1).
Proof.
  exact (@blank_search_after_load_is_void JsString.ascii good_env Scenario.export initial
           [Scenario.acme; Scenario.alice] [Scenario.employs] "  "
           eq_refl eq_refl eq_refl eq_refl eq_refl).
Defined.

(** ** The detail panel *)

Lemma has_get (k : Id) (ns : NodeSet) :
  has Id_eqb VisNode.id k ns = true -> exists t, nodes_get k ns = Some t.
Proof.
  unfold has, nodes_get, get. induction ns as [|a r IH]; simpl; [discriminate|].
  destruct (Id_eqb (VisNode.id a) k); [eauto | exact IH].
Qed.

Lemma relation_lines_closed (ns : NodeSet) (other_end : VisEdge.t -> Id)
    (line : string -> VisEdge.t -> RelationItem) (l : list VisEdge.t) :
  (forall e, In e l -> has Id_eqb VisNode.id (other_end e) ns = true) ->
  exists items,
    relation_lines ns other_end line l = inr items
    /\ Forall2 (fun e item => exists t, nodes_get (other_end e) ns = Some t
                              /\ item = line (VisNode.label t) e) l items.
Proof.
  induction l as [|e r IH]; intros H; simpl.
  - exists []. split; [reflexivity | constructor].
  - destruct (has_get _ _ (H e (or_introl eq_refl))) as [t Ht].
    destruct IH as (items & E & F); [intros x Hx; apply H; now right|].
    rewrite Ht, E. eexists. split; [reflexivity|].
    constructor; [eauto | exact F].
Qed.

Lemma relation_lines_dangling (ns : NodeSet) (other_end : VisEdge.t -> Id)
    (line : string -> VisEdge.t -> RelationItem) (l : list VisEdge.t)
    (e : VisEdge.t) :
  In e l -> nodes_get (other_end e) ns = None ->
  relation_lines ns other_end line l
  = inl (TypeError "Cannot read properties of null (reading 'label')").
Proof.
  induction l as [|x r IH]; intros Hin Hnone; simpl; [contradiction|].
  destruct (nodes_get (other_end x) ns) eqn:Ex; [|reflexivity].
  destruct Hin as [->|Hin]; [congruence|].
  now rewrite IH.
Qed.

(** The only error of [relation_lines]. *)
Lemma relation_lines_inl (ns : NodeSet) (other_end : VisEdge.t -> Id)
    (line : string -> VisEdge.t -> RelationItem) (l : list VisEdge.t)
    (x : Exn) :
  relation_lines ns other_end line l = inl x ->
  x = TypeError "Cannot read properties of null (reading 'label')".
Proof.
  revert x; induction l as [|y l IH]; intros x E; simpl in E; [discriminate|].
  destruct (nodes_get (other_end y) ns); [|now inversion E].
  destruct (relation_lines ns other_end line l); [|discriminate].
  inversion E; subst. now apply IH.
Qed.

Lemma closed_edge (ns : NodeSet) (es : EdgeSet) (e : VisEdge.t) :
  closed ns es = true -> In e es ->
  has Id_eqb VisNode.id (VisEdge.from e) ns = true
  /\ has Id_eqb VisNode.id (VisEdge.to e) ns = true.
Proof.
  unfold closed. rewrite forallb_forall. intros H Hin.
  now apply andb_true_iff, H.
Qed.

Lemma outgoing_In (nodeId : Id) (es : EdgeSet) (e : VisEdge.t) :
  In e (outgoing nodeId es) <-> In e es /\ VisEdge.from e = nodeId.
Proof. now rewrite outgoing_eq, filter_In, Id_eqb_eq. Qed.

Lemma incoming_In (nodeId : Id) (es : EdgeSet) (e : VisEdge.t) :
  In e (incoming nodeId es) <-> In e es /\ VisEdge.to e = nodeId.
Proof. now rewrite incoming_eq, filter_In, Id_eqb_eq. Qed.

(** The panel [showEntityDetails] writes on a graph without dangling edge. *)
Lemma showEntityDetails_closed
    (w : World) (ns : NodeSet) (es : EdgeSet) (nodeId : Id) :
  nodes w = Some ns -> edges w = Some es -> closed ns es = true ->
  let w' := exec (showEntityDetails nodeId) w in
  fst (showEntityDetails nodeId w) = Ret tt
  /\ match nodes_get nodeId ns with
     | None => dom w' = dom w
     | Some node =>
         exists d, entityDetails (dom w') = Some d
           /\ Details.label d = VisNode.label node
           /\ Details.type d = VisNode.type node
           /\ Forall2 (fun e item =>
                subject item = VisNode.label node
                /\ arrow item = VisEdge.label e
                /\ exists t, nodes_get (VisEdge.to e) ns = Some t
                             /\ object item = VisNode.label t)
              (outgoing nodeId es) (Details.outgoing d)
           /\ Forall2 (fun e item =>
                object item = VisNode.label node
                /\ arrow item = VisEdge.label e
                /\ exists t, nodes_get (VisEdge.from e) ns = Some t
                             /\ subject item = VisNode.label t)
              (incoming nodeId es) (Details.incoming d)
           /\ (Details.no_relations d = true <->
               outgoing nodeId es = [] /\ incoming nodeId es = [])
     end.
Proof.
  intros Hns Hes Hc.
  unfold exec, showEntityDetails, bind, read, emit, modify, write_dom, lift,
    ret, throw.
  cbv beta. simpl. rewrite Hns. simpl.
  destruct (nodes_get nodeId ns) as [node|]; simpl; [|split; reflexivity].
  rewrite Hes. simpl.
  destruct (@relation_lines_closed ns VisEdge.to
              (fun other e => mkRelationItem (VisNode.label node)
                                (VisEdge.label e) other)
              (outgoing nodeId es)) as (outl & Eo & Fo).
  { intros e He. apply outgoing_In in He. now apply (closed_edge ns es e Hc). }
  destruct (@relation_lines_closed ns VisEdge.from
              (fun other e => mkRelationItem other (VisEdge.label e)
                                (VisNode.label node))
              (incoming nodeId es)) as (incl & Ei & Fi).
  { intros e He. apply incoming_In in He. now apply (closed_edge ns es e Hc). }
  rewrite Eo. simpl. rewrite Ei. simpl.
  split; [reflexivity|]. eexists. split; [reflexivity|]. simpl.
  split; [reflexivity|]. split; [reflexivity|]. split; [|split].
  - eapply Forall2_impl; [|exact Fo]. simpl.
    intros e item (t & Ht & ->). simpl. eauto.
  - eapply Forall2_impl; [|exact Fi]. simpl.
    intros e item (t & Ht & ->). simpl. eauto.
  - rewrite andb_true_iff, !Nat.eqb_eq, !length_zero_iff_nil. reflexivity.
Qed.

(** X9: when every edge of the store starts and ends at a stored node,
    [showEntityDetails] never throws.  For an unknown id it returns and
    leaves the panel as it is; for a stored node it writes a panel with the
    label and type of the node, one line per outgoing edge (node, relation,
    label of the target) and one per incoming edge (label of the source,
    relation, node), in the order of the edge ids, and the "no relation"
    notice exactly when both lists are empty. *)
Theorem showEntityDetails_on_closed_graph
    (w : World) (ns : NodeSet) (es : EdgeSet) (nodeId : Id) :
  nodes w = Some ns -> edges w = Some es -> closed ns es = true ->
  let w' := exec (showEntityDetails nodeId) w in
  fst (showEntityDetails nodeId w) = Ret tt
  /\ match nodes_get nodeId ns with
     | None => dom w' = dom w
     | Some node =>
         exists d, entityDetails (dom w') = Some d
           /\ Details.label d = VisNode.label node
           /\ Details.type d = VisNode.type node
           /\ Forall2 (fun e item =>
                subject item = VisNode.label node
                /\ arrow item = VisEdge.label e
                /\ exists t, nodes_get (VisEdge.to e) ns = Some t
                             /\ object item = VisNode.label t)
              (outgoing nodeId es) (Details.outgoing d)
           /\ Forall2 (fun e item =>
                object item = VisNode.label node
                /\ arrow item = VisEdge.label e
                /\ exists t, nodes_get (VisEdge.from e) ns = Some t
                             /\ subject item = VisNode.label t)
              (incoming nodeId es) (Details.incoming d)
           /\ (Details.no_relations d = true <->
               outgoing nodeId es = [] /\ incoming nodeId es = [])
     end.
Proof. apply showEntityDetails_closed. Qed.

Lemma showEntityDetails_on_closed_graph_witness :
  fst (showEntityDetails (IdNum 1) Scenario.loaded) = Ret tt.
Proof.
  exact (proj1 (@showEntityDetails_on_closed_graph Scenario.loaded
    [toVisNode Scenario.acme; toVisNode Scenario.alice]
    (mapi toVisEdge [Scenario.employs]) (IdNum 1) eq_refl eq_refl eq_refl)).
Defined.

(** X10: when an edge touching a stored node has its other end missing
    from the node store, [showEntityDetails] on that node throws a
    [TypeError] (it reads [label] of [null]) and leaves the panel as it
    is. *)
Theorem showEntityDetails_throws_on_dangling_edge
    (w : World) (ns : NodeSet) (es : EdgeSet) (node : VisNode.t)
    (nodeId : Id) (e : VisEdge.t) :
  nodes w = Some ns -> edges w = Some es ->
  nodes_get nodeId ns = Some node ->
  In e es ->
  (VisEdge.from e = nodeId /\ nodes_get (VisEdge.to e) ns = None)
  \/ (VisEdge.to e = nodeId /\ nodes_get (VisEdge.from e) ns = None) ->
  fst (showEntityDetails nodeId w)
  = Throw (TypeError "Cannot read properties of null (reading 'label')")
  /\ dom (exec (showEntityDetails nodeId) w) = dom w.
Proof.
  intros Hns Hes Hnode Hin H.
  unfold exec, showEntityDetails, bind, read, emit, modify, write_dom, lift,
    ret, throw.
  cbv beta. simpl. rewrite Hns. simpl. rewrite Hnode. simpl.
  rewrite Hes. simpl.
  destruct H as [[Hf Hnone]|[Ht Hnone]].
  - rewrite (@relation_lines_dangling ns VisEdge.to _ (outgoing nodeId es) e);
      [split; reflexivity | apply outgoing_In; tauto | exact Hnone].
  - destruct (relation_lines ns VisEdge.to _ (outgoing nodeId es)) eqn:Eo;
      simpl.
    + apply relation_lines_inl in Eo. subst. split; reflexivity.
    + rewrite (@relation_lines_dangling ns VisEdge.from _
                 (incoming nodeId es) e);
        [split; reflexivity | apply incoming_In; tauto | exact Hnone].
Qed.

Lemma showEntityDetails_throws_on_dangling_edge_witness :
  fst (showEntityDetails (IdNum 1)
         (exec (loadGraph good_env (Resolved Cases.dangling_target)) initial))
  = Throw (TypeError "Cannot read properties of null (reading 'label')").
Proof.
  refine (proj1 (@showEntityDetails_throws_on_dangling_edge
    (exec (loadGraph good_env (Resolved Cases.dangling_target)) initial)
    [toVisNode Scenario.acme; toVisNode Scenario.alice]
    [VisEdge.mk 0 (IdNum 1) (IdNum 99) "雇用" "雇用"]
    (toVisNode Scenario.acme) (IdNum 1)
    (VisEdge.mk 0 (IdNum 1) (IdNum 99) "雇用" "雇用")
    eq_refl eq_refl eq_refl _ _)).
  - left. reflexivity.
  - left. split; reflexivity.
Defined.

(** ** Search and the detail panel *)

Lemma forallb_pointwise {A : Type} (f g : A -> bool) (l : list A) :
  (forall a, f a = g a) -> forallb f l = forallb g l.
Proof.
  intros H. induction l as [|a r IH]; simpl; [reflexivity|].
  now rewrite H, IH.
Qed.

Lemma has_map (f : VisNode.t -> VisNode.t) (k : Id) (ns : NodeSet) :
  (forall n, VisNode.id (f n) = VisNode.id n) ->
  has Id_eqb VisNode.id k (map f ns) = has Id_eqb VisNode.id k ns.
Proof.
  intros Hf. unfold has. induction ns as [|a r IH]; simpl; [reflexivity|].
  now rewrite Hf, IH.
Qed.










(** ** Invariants of the page *)

Lemma count_network_new_search (events : list Event) :
  forallb (fun e => is_focus e || is_details e) events = true ->
  count is_network_new events = 0.
Proof.
  induction events as [|e r IH]; simpl; [reflexivity|].
  intros H. apply andb_true_iff in H as [He Hr].
  unfold count in *. simpl.
  destruct e; simpl in *; try discriminate; now apply IH.
Qed.

Lemma globals_in_order_ext (w w' : World) :
  network w' = network w -> is_set (nodes w') = is_set (nodes w) ->
  edges w' = edges w -> graphData w' = graphData w ->
  globals_in_order w = true -> globals_in_order w' = true.
Proof. unfold globals_in_order. now intros -> -> -> ->. Qed.

Lemma loadGraph_resume_invariant (env : Env) (o : FetchOutcome) (w : World) :
  globals_in_order w = true ->
  globals_in_order (exec (loadGraph_resume env o) w) = true.
Proof.
  unfold globals_in_order. intros H2.
  unfold exec, loadGraph_resume, loadGraph_try, loadGraph_catch, try_catch,
    bind, modify, construct, updateStats, initNetwork, read, lift, ret,
    write_dom, emit, modify, hideLoading, throw, ret.
  cbv beta zeta.
  destruct o as [e|result]; simpl; [exact H2|].
  destruct (Payload.success result); simpl; [|exact H2].
  assert (H3 : implb (is_set (network w)) (is_set (nodes w))
               && Bool.eqb (is_set (nodes w)) (is_set (edges w)) = true).
  { apply andb_true_iff in H2 as [H2 _]. exact H2. }
  destruct (Payload.nodes result) as [rn|]; simpl;
    [|rewrite H3, implb_true_r; reflexivity].
  destruct (Payload.edges result) as [re|]; simpl;
    [|rewrite H3, implb_true_r; reflexivity].
  destruct (vis_loaded env); simpl;
    [|rewrite H3, implb_true_r; reflexivity].
  destruct (new_NodeSet (map toVisNode rn)) as [x|ns]; simpl;
    [rewrite H3, implb_true_r; reflexivity|].
  rewrite new_EdgeSet_mapi. simpl.
  destruct (network w) eqn:Hnet; simpl; rewrite ?Hnet; [reflexivity|].
  destruct (network_ctor env); simpl; rewrite ?Hnet; reflexivity.
Qed.

Lemma handler_invariant {B : JsString.Builtins} (a : Action) (w : World) :
  well_formed w = true -> globals_in_order w = true ->
  globals_in_order (exec (handler a) w) = true.
Proof.
  intros Hwf H. destruct a as [|env o|value|ids|ids| |]; simpl handler.
  - exact H.
  - now apply loadGraph_resume_invariant.
  - destruct (@searchEntity_frame B value w Hwf) as (F1 & F2 & F3 & F4 & _).
    apply (@globals_in_order_ext w); try assumption.
    rewrite F2. now destruct (nodes w).
  - destruct ids as [|i r]; [exact H|]. simpl.
    pose proof (showEntityDetails_frame i w) as F. cbv zeta in F.
    destruct F as (F1 & F2 & F3 & F4 & _).
    apply (@globals_in_order_ext w); try assumption. now rewrite F2.
  - destruct ids as [|i r]; exact H.
  - unfold exec, fitGraph, bind, read. cbv beta.
    destruct (network w); exact H.
  - unfold exec, exportGraph, bind, read. cbv beta.
    destruct (graphData w); exact H.
Qed.

Lemma reachable_invariant {B : JsString.Builtins} (w : World) :
  reachable w -> globals_in_order w = true.
Proof.
  intros R. induction R as [|w w' a R IH Hstep].
  - reflexivity.
  - destruct Hstep. apply handler_invariant; [|exact IH].
    now apply reachable_well_formed.
Qed.

Lemma loaded_reachable : reachable Scenario.loaded.
Proof.
  change (reachable
            (exec (handler (Answer good_env (Resolved Scenario.export)))
                  (exec loadGraph_start initial))).
  eapply reach_step; [apply reach_load|].
  exact (@step_intro JsString.ascii (exec loadGraph_start initial)
           (Answer good_env (Resolved Scenario.export)) eq_refl).
Qed.

(** With a network in place, the answer to a reload constructs none. *)
Lemma loadGraph_resume_keeps_network
    (env : Env) (o : FetchOutcome) (w : World) (net : Network) :
  network w = Some net ->
  let w' := exec (loadGraph_resume env o) w in
  network w' = Some net
  /\ exists events, trace w' = trace w ++ events
       /\ count is_network_new events = 0.
Proof.
  intros Hnet.
  unfold exec, loadGraph_resume, loadGraph_try, loadGraph_catch, try_catch,
    bind, modify, construct, updateStats, initNetwork, read, lift, ret,
    write_dom, emit, modify, hideLoading, throw, ret.
  cbv beta zeta.
  destruct o as [e|result]; simpl.
  { split; [exact Hnet|]. eexists. rewrite <- app_assoc.
    split; reflexivity. }
  destruct (Payload.success result); simpl;
    [|split; [exact Hnet|]; eexists; split; reflexivity].
  destruct (Payload.nodes result) as [rn|]; simpl;
    [|split; [exact Hnet|]; eexists; rewrite <- app_assoc; split; reflexivity].
  destruct (Payload.edges result) as [re|]; simpl;
    [|split; [exact Hnet|]; eexists; rewrite <- app_assoc; split; reflexivity].
  destruct (vis_loaded env); simpl;
    [|split; [exact Hnet|]; eexists; rewrite <- app_assoc; split; reflexivity].
  destruct (new_NodeSet (map toVisNode rn)) as [x|ns]; simpl;
    [split; [exact Hnet|]; eexists; rewrite <- app_assoc; split; reflexivity|].
  rewrite new_EdgeSet_mapi. simpl. rewrite Hnet. simpl. rewrite Hnet.
  split; [reflexivity|]. eexists. split; reflexivity.
Qed.

(** X11: once the network exists it is never constructed again.  In a
    world where [network] is set, no turn of the event loop (reload,
    answer, search, click, double click, fit, export) calls
    [new vis.Network] or replaces [network]; the answer with a valid export
    hands the new stores to [network.setData] instead. *)
Theorem network_never_rebuilt {B : JsString.Builtins}
    (a : Action) (w : World) (net : Network) :
  well_formed w = true ->
  network w = Some net ->
  let w' := exec (handler a) w in
  network w' = Some net
  /\ count is_network_new (trace w') = count is_network_new (trace w)
  /\ forall env result ns es,
       a = Answer env (Resolved result) ->
       vis_loaded env = true -> valid_export result = true ->
       Payload.nodes result = Some ns -> Payload.edges result = Some es ->
       trace w' = trace w ++ [NetworkSetData].
Proof.
  intros Hwf Hnet w'.
  assert (G : network w' = Some net
              /\ exists events, trace w' = trace w ++ events
                   /\ count is_network_new events = 0).
  { subst w'. destruct a as [|env o|value|ids|ids| |]; simpl handler.
    - split; [exact Hnet|]. now exists [Fetch "/api/knowledge-graph/export"].
    - now apply loadGraph_resume_keeps_network.
    - destruct (@searchEntity_frame B value w Hwf)
        as (F1 & _ & _ & _ & _ & events & F6 & F7).
      split; [now rewrite F1|]. exists events. split; [exact F6|].
      now apply count_network_new_search.
    - destruct ids as [|i r].
      + split; [exact Hnet|]. exists []. now rewrite app_nil_r.
      + simpl. pose proof (showEntityDetails_frame i w) as F. cbv zeta in F.
        destruct F as (F1 & _ & _ & _ & _ & F6).
        split; [now rewrite F1|]. now exists [Enter_showEntityDetails i].
    - destruct ids as [|i r].
      + split; [exact Hnet|]. exists []. now rewrite app_nil_r.
      + split; [exact Hnet|]. now exists [NetworkFocus i].
    - unfold exec, fitGraph, bind, read. cbv beta. rewrite Hnet.
      split; [exact Hnet|]. now exists [NetworkFit].
    - unfold exec, exportGraph, bind, read. cbv beta.
      destruct (graphData w) as [doc|].
      + split; [exact Hnet|]. now exists [Download "knowledge_graph.json" doc].
      + split; [exact Hnet|]. now exists [Alert "请先加载图谱"]. }
  destruct G as (G1 & events & G2 & G3).
  split; [exact G1|]. split.
  - rewrite G2, count_app, G3. lia.
  - intros env result ns es -> Hvis Hvalid Hn He. subst w'. simpl handler.
    destruct (@valid_export_fields result ns es Hvalid Hn He) as [Hs Hd].
    unfold exec, loadGraph_resume, loadGraph_try, try_catch, bind, modify,
      construct, updateStats, initNetwork, read, lift, ret, write_dom, emit,
      modify, hideLoading, ret.
    cbv beta zeta. rewrite Hs, Hn, He, Hvis. simpl.
    rewrite (@new_NodeSet_distinct ns Hd). simpl.
    rewrite new_EdgeSet_mapi. simpl. rewrite Hnet. reflexivity.
Qed.

Lemma network_never_rebuilt_witness :
  count is_network_new
    (trace (exec (handler (Answer good_env (Resolved Scenario.dangling)))
              Scenario.loaded))
  = count is_network_new (trace Scenario.loaded).
Proof.
  exact (proj1 (proj2 (@network_never_rebuilt JsString.ascii
    (Answer good_env (Resolved Scenario.dangling)) Scenario.loaded
    VisNetwork eq_refl eq_refl))).
Defined.

(** X12: the globals are filled in a fixed order.  In every world the page
    can reach, a network implies a node store, the node store and the edge
    store are set together, and a node store implies a cached export: as
    soon as a graph is drawn, [exportGraph] has a document to download. *)
Theorem globals_filled_in_order {B : JsString.Builtins} (w : World) :
  reachable w ->
  (network w <> None -> nodes w <> None)
  /\ (nodes w = None <-> edges w = None)
  /\ (nodes w <> None -> graphData w <> None).
Proof.
  intros R. apply reachable_invariant in R.
  unfold globals_in_order in R.
  destruct (network w), (nodes w), (edges w), (graphData w);
    simpl in R; try discriminate; repeat split; congruence.
Qed.

Lemma globals_filled_in_order_witness :
  graphData Scenario.loaded <> None.
Proof.
  apply (proj2 (proj2 (@globals_filled_in_order JsString.ascii Scenario.loaded
                         loaded_reachable))).
  discriminate.
Defined.

Lemma indexed_from_seq (start : nat) (es : list VisEdge.t) :
  indexed_from start es = true ->
  map VisEdge.id es = seq start (List.length es).
Proof.
  revert start; induction es as [|e r IH]; intros start H; simpl in *.
  - reflexivity.
  - apply andb_true_iff in H as [He Hr]. apply Nat.eqb_eq in He.
    now rewrite He, (IH _ Hr).
Qed.

(** X13: in every world the page can reach, the stored nodes have pairwise
    distinct identifiers and the stored edges carry the identifiers
    0, 1, 2, ... in order; no search, click or failed reload breaks this. *)
Theorem stores_stay_well_formed {B : JsString.Builtins} (w : World) :
  reachable w ->
  (forall ns, nodes w = Some ns -> NoDup (map VisNode.id ns))
  /\ (forall es, edges w = Some es ->
        map VisEdge.id es = seq 0 (List.length es)).
Proof.
  intros R. apply reachable_well_formed in R. split.
  - intros ns H. now apply (well_formed_nodes w).
  - intros es H. unfold well_formed in R. rewrite H in R.
    apply andb_true_iff in R as [_ R]. now apply indexed_from_seq.
Qed.

Lemma stores_stay_well_formed_witness :
  NoDup (map VisNode.id [toVisNode Scenario.acme; toVisNode Scenario.alice]).
Proof.
  exact (proj1 (@stores_stay_well_formed JsString.ascii Scenario.loaded loaded_reachable)
           [toVisNode Scenario.acme; toVisNode Scenario.alice] eq_refl).
Defined.

(** ** Statistics and colours *)

Lemma nodup_length_le (l : list string) :
  List.length (nodup string_dec l) <= List.length l.
Proof.
  induction l as [|x r IH]; simpl; [lia|].
  destruct (in_dec string_dec x r); simpl; lia.
Qed.

(** X14: after a successful load the displayed type count lies between 0
    and the number of loaded nodes, and it is 0 only for an export without
    nodes. *)
Theorem typeCount_bounds (env : Env) (result : Payload.t) (w : World)
    (ns : list RawNode.t) (es : list RawEdge.t) :
  vis_loaded env = true ->
  valid_export result = true ->
  Payload.nodes result = Some ns ->
  Payload.edges result = Some es ->
  exists k,
    typeCount (dom (exec (loadGraph env (Resolved result)) w)) = Some k
    /\ k <= List.length ns
    /\ (k = 0 <-> ns = []).
Proof.
  intros Hvis Hvalid Hn He. rewrite exec_loadGraph.
  destruct (@loadGraph_resume_valid env result (exec loadGraph_start w)
              ns es Hvis Hvalid Hn He) as (_ & _ & _ & _ & _ & E).
  eexists. split; [exact E|]. unfold distinct. split.
  - rewrite <- (length_map RawNode.type ns). apply nodup_length_le.
  - rewrite length_zero_iff_nil. split.
    + intros H. destruct ns as [|n r]; [reflexivity|].
      assert (Hin : In (RawNode.type n)
                       (nodup string_dec (map RawNode.type (n :: r))))
        by (apply nodup_In; now left).
      rewrite H in Hin. contradiction.
    + now intros ->.
Qed.

Lemma typeCount_bounds_witness :
  exists k,
    typeCount (dom (exec (loadGraph good_env (Resolved Scenario.export))
                      initial)) = Some k
    /\ k <= 2 /\ (k = 0 <-> [Scenario.acme; Scenario.alice] = []).
Proof.
  exact (@typeCount_bounds good_env Scenario.export initial
           [Scenario.acme; Scenario.alice] [Scenario.employs]
           eq_refl eq_refl eq_refl eq_refl).
Defined.

Lemma assoc_string_In (k : string) (l : list (string * string)) (v : string) :
  assoc_string k l = Some v -> In (k, v) l.
Proof.
  induction l as [|[k' v'] r IH]; simpl; [discriminate|].
  destruct (String.eqb_spec k k') as [->|_].
  - intros H. inversion H. now left.
  - intros H. right. now apply IH.
Qed.

(** X15: the colour of a type is total with one exception.  For every type
    label that is not the name of a member of [Object.prototype] the
    lookup yields a colour string: the entry of the table for the eight
    listed types, the colour of ['Unknown'] for every other label.  For
    the twelve inherited names it yields the inherited member instead of a
    colour. *)
Theorem colorFor_total_but_for_inherited_names (t : string) :
  (existsb (String.eqb t) object_prototype_members = false ->
   exists c, colorFor t = Hex c
     /\ (In (t, c) typeColors_own
         \/ (c = "#B8B8B8" /\ ~ In t (map fst typeColors_own))))
  /\ (existsb (String.eqb t) object_prototype_members = true ->
      colorFor t = Inherited t).
Proof.
  unfold colorFor, typeColors. split; intros H.
  - destruct (assoc_string t typeColors_own) as [c|] eqn:E.
    + exists c. split; [reflexivity|]. left. now apply assoc_string_In.
    + rewrite H. exists "#B8B8B8". split; [reflexivity|]. right.
      split; [reflexivity|]. intros Hin.
      apply in_map_iff in Hin as ([k v] & Hk & Hin). simpl in Hk. subst k.
      revert E. clear H. generalize typeColors_own Hin.
      induction l as [|[k' v'] r IH]; simpl; [contradiction|].
      intros [Heq|Hr].
      * inversion Heq; subst. now rewrite String.eqb_refl.
      * destruct (String.eqb t k'); [discriminate | now apply IH].
  - destruct (assoc_string t typeColors_own) as [c|] eqn:E.
    + exfalso. apply assoc_string_In in E.
      apply existsb_exists in H as (m & Hm & Et).
      apply String.eqb_eq in Et. subst m.
      revert E Hm. clear. intros E Hm.
      assert (G : forallb (fun kv : string * string =>
                    negb (existsb (String.eqb (fst kv))
                            object_prototype_members))
                    typeColors_own = true) by reflexivity.
      rewrite forallb_forall in G. specialize (G _ E). cbn [fst] in G.
      apply negb_true_iff in G.
      assert (existsb (String.eqb t) object_prototype_members = true).
      { apply existsb_exists. exists t. split; [exact Hm|].
        apply String.eqb_refl. }
      congruence.
    + now rewrite H.
Qed.

Lemma colorFor_total_but_for_inherited_names_witness :
  exists c, colorFor "Robot" = Hex c
    /\ (In ("Robot", c) typeColors_own
        \/ (c = "#B8B8B8" /\ ~ In "Robot" (map fst typeColors_own))).
Proof.
  exact (proj1 (colorFor_total_but_for_inherited_names "Robot") eq_refl).
Defined.

(** ** The status line *)

Module UtilsFacts.
Import Utils.

Lemma split_lines_joined (s : string) :
  match split_lines s with
  | [] => False
  | line :: rest =>
      (line ++ shown_text (flat_map (fun l => [Br; TextNode l]) rest))%string = s
      /\ List.length rest = occurrences newline s
  end.
Proof.
  induction s as [|c s IH]; simpl; [split; reflexivity|].
  destruct (Ascii.eqb c newline) eqn:E.
  - apply Ascii.eqb_eq in E. subst c.
    destruct (split_lines s) as [|line rest]; [contradiction|].
    destruct IH as [IH1 IH2]. simpl. rewrite IH1, IH2. split; reflexivity.
  - destruct (split_lines s) as [|line rest]; [contradiction|].
    destruct IH as [IH1 IH2]. simpl. rewrite IH1, IH2. split; reflexivity.
Qed.

Lemma count_br_lines (rest : list string) :
  count_br (flat_map (fun l => [Br; TextNode l]) rest) = List.length rest.
Proof. induction rest as [|l r IH]; simpl; [reflexivity | now rewrite IH]. Qed.

Lemma includes_char (s : string) (c : ascii) :
  JsString.includes s (String c EmptyString) = false -> occurrences c s = 0.
Proof.
  induction s as [|d r IH]; [reflexivity|].
  cbn [JsString.includes occurrences].
  destruct (String.prefix (String c "") (String d r)) eqn:P; [discriminate|].
  intros H. rewrite (IH H).
  destruct (Ascii.eqb d c) eqn:E; [|reflexivity].
  apply Ascii.eqb_eq in E. subst d. exfalso.
  assert (String.prefix (String c "") (String c r) = true).
  { apply prefix_iff. now exists r. }
  congruence.
Qed.

Lemma status_children_text (message : string) :
  shown_text (status_children message) = message
  /\ count_br (status_children message) = occurrences newline message.
Proof.
  unfold status_children.
  destruct (JsString.includes message (String newline "")) eqn:I.
  - pose proof (split_lines_joined message) as J.
    destruct (split_lines message) as [|line rest]; [contradiction|].
    destruct J as [J1 J2]. simpl. rewrite count_br_lines. now split.
  - rewrite (includes_char _ _ I).
    destruct message as [|c r]; simpl; [split; reflexivity|].
    split; [|reflexivity]. f_equal.
    clear. induction r as [|d r IH]; simpl; [reflexivity | now rewrite IH].
Qed.

(** X16: [showStatus] shows the message as it is, line by line.  The new
    status element is put after what remains of the old ones, has the
    class ["status " + type], shows exactly the text of the message
    (reading every [<br>] as a line feed) and holds one [<br>] per line
    feed of the message. *)
Theorem showStatus_shows_the_message
    (message type : string) (duration : Z) (p : StatusPage) :
  exists el,
    statuses (showStatus message type duration p) = tl (statuses p) ++ [el]
    /\ className el = ("status " ++ type)%string
    /\ shown_text (children el) = message
    /\ count_br (children el) = occurrences newline message.
Proof.
  exists (mkStatus (fresh p) ("status " ++ type) (status_children message)).
  split; [|split; [reflexivity | apply status_children_text]].
  unfold showStatus. simpl. now destruct (statuses p).
Qed.

Lemma status_step_at_most_one (a : StatusAction) (p : StatusPage) :
  List.length (statuses p) <= 1 ->
  List.length (statuses (status_step a p)) <= 1.
Proof.
  intros H. destruct a as [m t d|h]; simpl.
  - destruct (statuses p) as [|x [|y r]]; simpl in *; lia.
  - destruct (existsb (Nat.eqb h) (timers p)); [|exact H]. simpl.
    etransitivity; [apply filter_length_le | exact H].
Qed.

(** X17: at most one status is on the page.  Starting with at most one
    element of class [status], any sequence of calls of [showStatus] and
    of timers going off leaves at most one, and right after a call of
    [showStatus] it is the element of that call. *)
Theorem at_most_one_status (l : list StatusAction) (p : StatusPage) :
  List.length (statuses p) <= 1 ->
  List.length (statuses (status_run l p)) <= 1
  /\ forall message type duration,
       statuses (showStatus message type duration (status_run l p))
       = [mkStatus (fresh (status_run l p)) ("status " ++ type)
            (status_children message)].
Proof.
  intros H.
  assert (G : List.length (statuses (status_run l p)) <= 1).
  { revert p H. unfold status_run.
    induction l as [|a l IH]; intros p H; simpl; [exact H|].
    apply IH. now apply status_step_at_most_one. }
  split; [exact G|]. intros message type duration. unfold showStatus.
  destruct (statuses (status_run l p)) as [|x [|y r]]; simpl in *;
    try reflexivity; lia.
Qed.

Lemma at_most_one_status_witness :
  List.length
    (statuses (status_run [Show "a" "connected" 3000; Show "b" "error" 0;
                           Fire 0] blank_page)) <= 1.
Proof.
  refine (proj1 (@at_most_one_status
    [Show "a" "connected" 3000; Show "b" "error" 0; Fire 0] blank_page _)).
  simpl. lia.
Defined.

(** X18: the timer of a status removes that status and no other.  When a
    status with a positive duration is shown and its timer goes off, the
    status is gone; when another status has been shown in between, the
    timer of the first leaves the second in place. *)
Theorem timer_removes_its_own_status_only
    (m1 t1 m2 t2 : string) (d1 d2 : Z) (p : StatusPage) :
  List.length (statuses p) <= 1 ->
  (0 < d1)%Z ->
  let p1 := showStatus m1 t1 d1 p in
  let p2 := showStatus m2 t2 d2 p1 in
  statuses (status_step (Fire (fresh p)) p1) = []
  /\ statuses (status_step (Fire (fresh p)) p2)
     = [mkStatus (S (fresh p)) ("status " ++ t2) (status_children m2)].
Proof.
  intros H Hd p1 p2. subst p2 p1.
  apply Z.ltb_lt in Hd.
  assert (T : forall l, existsb (Nat.eqb (fresh p)) (l ++ [fresh p]) = true).
  { intros l. rewrite existsb_app. simpl.
    now rewrite Nat.eqb_refl, orb_true_r. }
  assert (T2 : forall l,
             existsb (Nat.eqb (fresh p))
               (if (0 <? d2)%Z then (l ++ [fresh p]) ++ [S (fresh p)]
                else l ++ [fresh p]) = true).
  { intros l. destruct (0 <? d2)%Z; [|apply T].
    rewrite existsb_app, T. reflexivity. }
  unfold status_step, showStatus. cbn [timers statuses fresh].
  rewrite Hd, T, T2. unfold timer_fires. cbn [timers statuses fresh].
  assert (E : Nat.eqb (S (fresh p)) (fresh p) = false)
    by (apply Nat.eqb_neq; lia).
  destruct (statuses p) as [|x [|y r]]; simpl in *; try lia;
    rewrite ?Nat.eqb_refl, ?E; simpl; split; reflexivity.
Qed.

Lemma timer_removes_its_own_status_only_witness :
  statuses (status_step (Fire 0)
              (showStatus "second" "error" 0
                 (showStatus "first" "connected" 3000 blank_page)))
  = [mkStatus 1 "status error" (status_children "second")].
Proof.
  refine (proj2 (@timer_removes_its_own_status_only
    "first" "connected" "second" "error" 3000 0 blank_page _ _)).
  - simpl. lia.
  - reflexivity.
Defined.

(** ** HTML escaping *)

Lemma occurrences_app (c : ascii) (a b : string) :
  occurrences c (a ++ b) = occurrences c a + occurrences c b.
Proof.
  induction a as [|d a IH]; simpl; [reflexivity|]. rewrite IH. lia.
Qed.

Lemma serialize_text_cons (c : ascii) (s : string) :
  serialize_text (String c s) =
  if Ascii.eqb c "&" then ("&amp;" ++ serialize_text s)%string
  else if Ascii.eqb c "<" then ("&lt;" ++ serialize_text s)%string
  else if Ascii.eqb c ">" then ("&gt;" ++ serialize_text s)%string
  else if Ascii.eqb c "194" then
    match s with
    | String d r =>
        if Ascii.eqb d "160" then ("&nbsp;" ++ serialize_text r)%string
        else String c (serialize_text s)
    | EmptyString => String c EmptyString
    end
  else String c (serialize_text s).
Proof. destruct s; reflexivity. Qed.

(** The serialised text holds no angle bracket and the line feeds of the
    text. *)
Lemma serialize_text_brackets (s : string) :
  let P := fun t =>
    occurrences "<" (serialize_text t) = 0
    /\ occurrences ">" (serialize_text t) = 0
    /\ occurrences newline (serialize_text t) = occurrences newline t in
  P s /\ forall c, P (String c s).
Proof.
  cbv zeta.
  assert (Step : forall c t,
    (occurrences "<" (serialize_text t) = 0
     /\ occurrences ">" (serialize_text t) = 0
     /\ occurrences newline (serialize_text t) = occurrences newline t) ->
    (match t with
     | String d r =>
         occurrences "<" (serialize_text r) = 0
         /\ occurrences ">" (serialize_text r) = 0
         /\ occurrences newline (serialize_text r) = occurrences newline r
     | EmptyString => True
     end) ->
    occurrences "<" (serialize_text (String c t)) = 0
    /\ occurrences ">" (serialize_text (String c t)) = 0
    /\ occurrences newline (serialize_text (String c t))
       = occurrences newline (String c t)).
  { intros c t (A1 & A2 & A3) B. rewrite serialize_text_cons.
    destruct (Ascii.eqb c "&") eqn:E1.
    { apply Ascii.eqb_eq in E1; subst.
      rewrite !occurrences_app, A1, A2, A3. repeat split. }
    destruct (Ascii.eqb c "<") eqn:E2.
    { apply Ascii.eqb_eq in E2; subst.
      rewrite !occurrences_app, A1, A2, A3. repeat split. }
    destruct (Ascii.eqb c ">") eqn:E3.
    { apply Ascii.eqb_eq in E3; subst.
      rewrite !occurrences_app, A1, A2, A3. repeat split. }
    destruct (Ascii.eqb c "194") eqn:E4.
    - apply Ascii.eqb_eq in E4; subst c. destruct t as [|d r].
      + repeat split.
      + destruct (Ascii.eqb d "160") eqn:E5.
        * apply Ascii.eqb_eq in E5; subst d. destruct B as (B1 & B2 & B3).
          rewrite !occurrences_app, B1, B2, B3. repeat split.
        * cbn [occurrences]. rewrite A1, A2, A3. repeat split.
    - cbn [occurrences]. rewrite E2, E3, A1, A2, A3. repeat split. }
  induction s as [|d r [IH1 IH2]].
  - split; [repeat split|]. intros c. apply Step; [repeat split | exact I].
  - split; [apply IH2|]. intros c. apply Step; [apply IH2 | exact IH1].
Qed.

Lemma br_for_newlines_brackets (s : string) :
  occurrences "<" (br_for_newlines s)
  = occurrences "<" s + occurrences newline s
  /\ occurrences ">" (br_for_newlines s)
     = occurrences ">" s + occurrences newline s
  /\ occurrences newline (br_for_newlines s) = 0.
Proof.
  induction s as [|c r (IH1 & IH2 & IH3)]; simpl; [repeat split|].
  destruct (Ascii.eqb c newline) eqn:E.
  - apply Ascii.eqb_eq in E; subst c. simpl. rewrite IH1, IH2, IH3.
    repeat split; lia.
  - simpl. rewrite E, IH1, IH2, IH3. repeat split; lia.
Qed.

(** X19: [escapeHtml] lets no markup of the text through: in its result
    the characters [<] and [>] occur only in the [<br>] it writes, one for
    every line feed of the text, and no line feed is left. *)
Theorem escapeHtml_brackets_only_in_br (text : string) :
  occurrences "<" (escapeHtml text) = occurrences newline text
  /\ occurrences ">" (escapeHtml text) = occurrences newline text
  /\ occurrences newline (escapeHtml text) = 0.
Proof.
  unfold escapeHtml.
  destruct (serialize_text_brackets text) as [(A1 & A2 & A3) _].
  destruct (br_for_newlines_brackets (serialize_text text)) as (B1 & B2 & B3).
  rewrite B1, B2, B3, A1, A2, A3. repeat split.
Qed.

Lemma includes_cons_false (c : ascii) (r k : string) :
  JsString.includes (String c r) k = false ->
  String.prefix k (String c r) = false /\ JsString.includes r k = false.
Proof.
  cbn [JsString.includes].
  destruct (String.prefix k (String c r)); [discriminate | now split].
Qed.

Lemma serialize_text_plain (s : string) :
  occurrences "&" s = 0 -> occurrences "<" s = 0 ->
  occurrences ">" s = 0 -> JsString.includes s nbsp = false ->
  serialize_text s = s.
Proof.
  induction s as [|c r IH]; [reflexivity|].
  cbn [occurrences]. intros H1 H2 H3 H4. rewrite serialize_text_cons.
  apply includes_cons_false in H4 as [P H4].
  destruct (Ascii.eqb c "&"); [discriminate|].
  destruct (Ascii.eqb c "<"); [discriminate|].
  destruct (Ascii.eqb c ">"); [discriminate|].
  assert (T : serialize_text r = r) by now apply IH.
  destruct (Ascii.eqb c "194") eqn:E4; [|now rewrite T].
  apply Ascii.eqb_eq in E4. subst c.
  destruct r as [|d r']; [reflexivity|].
  destruct (Ascii.eqb d "160") eqn:E5; [|now rewrite T].
  apply Ascii.eqb_eq in E5. subst d. exfalso.
  assert (String.prefix nbsp (String "194" (String "160" r')) = true).
  { apply prefix_iff. now exists r'. }
  congruence.
Qed.

Lemma br_for_newlines_plain (s : string) :
  occurrences newline s = 0 -> br_for_newlines s = s.
Proof.
  induction s as [|c r IH]; simpl; [reflexivity|].
  destruct (Ascii.eqb c newline); [discriminate|].
  intros H. now rewrite IH.
Qed.

(** X20: [escapeHtml] returns a text unchanged when the text holds none of
    [&], [<], [>], the no-break space and the line feed. *)
Theorem escapeHtml_plain_text (text : string) :
  occurrences "&" text = 0 -> occurrences "<" text = 0 ->
  occurrences ">" text = 0 -> JsString.includes text nbsp = false ->
  occurrences newline text = 0 ->
  escapeHtml text = text.
Proof.
  intros H1 H2 H3 H4 H5. unfold escapeHtml.
  rewrite (@serialize_text_plain text H1 H2 H3 H4).
  now apply br_for_newlines_plain.
Qed.

Lemma escapeHtml_plain_text_witness :
  escapeHtml "乔治·华盛顿 employs Alice" = "乔治·华盛顿 employs Alice".
Proof.
  exact (@escapeHtml_plain_text "乔治·华盛顿 employs Alice"
           eq_refl eq_refl eq_refl eq_refl eq_refl).
Defined.

End UtilsFacts.

(** ** Graphs without dangling edge *)

Lemma closed_map (f : VisNode.t -> VisNode.t) (ns : NodeSet) (es : EdgeSet) :
  (forall n, VisNode.id (f n) = VisNode.id n) ->
  closed (map f ns) es = closed ns es.
Proof.
  intros Hf. unfold closed. apply forallb_pointwise. intros e.
  now rewrite !has_map.
Qed.

Lemma repaint_id {B : JsString.Builtins} (value : string) (n : VisNode.t) :
  VisNode.id (repaint value n) = VisNode.id n.
Proof.
  pose proof (repaint_keeps_data value n) as D. unfold data_of in D.
  now inversion D.
Qed.

Lemma has_toVisNode (k : Id) (ns : list RawNode.t) :
  has Id_eqb VisNode.id k (map toVisNode ns)
  = existsb (fun n => Id_eqb (RawNode.id n) k) ns.
Proof.
  unfold has. induction ns as [|a r IH]; simpl; [reflexivity|].
  now rewrite IH.
Qed.

Lemma closed_mapi_from (ns : NodeSet) (start : nat) (es : list RawEdge.t) :
  closed ns (mapi_from toVisEdge start es)
  = forallb (fun e => has Id_eqb VisNode.id (RawEdge.source e) ns
                      && has Id_eqb VisNode.id (RawEdge.target e) ns) es.
Proof.
  unfold closed. revert start.
  induction es as [|e r IH]; intros start; simpl; [reflexivity|].
  now rewrite IH.
Qed.

(** X21: loading a valid export without dangling edge gives a world without
    dangling edge: every stored edge starts and ends at a stored node. *)
Theorem load_of_dangling_free_export_is_closed
    (env : Env) (result : Payload.t) (w : World) :
  vis_loaded env = true ->
  valid_export result = true ->
  dangling_free result = true ->
  let w' := exec (loadGraph env (Resolved result)) w in
  well_formed w' = true /\ closed_world w' = true
  /\ exists ns es, nodes w' = Some ns /\ edges w' = Some es.
Proof.
  intros Hvis Hvalid Hfree w'. subst w'. unfold dangling_free in Hfree.
  destruct (Payload.nodes result) as [ns|] eqn:Hn; [|discriminate].
  destruct (Payload.edges result) as [es|] eqn:He; [|discriminate].
  rewrite exec_loadGraph.
  destruct (@loadGraph_resume_valid env result (exec loadGraph_start w)
              ns es Hvis Hvalid Hn He) as (E1 & E2 & _).
  split; [|split].
  - unfold well_formed. rewrite E1, E2, toVisNode_ids.
    destruct (@valid_export_fields result ns es Hvalid Hn He) as [_ ->].
    apply mapi_from_indexed.
  - unfold closed_world. rewrite E1, E2. unfold mapi.
    rewrite closed_mapi_from. rewrite <- Hfree. apply forallb_pointwise.
    intros e. now rewrite !has_toVisNode.
  - eauto.
Qed.

Lemma load_of_dangling_free_export_is_closed_witness :
  closed_world (exec (loadGraph good_env (Resolved Scenario.export)) initial)
  = true.
Proof.
  exact (proj1 (proj2 (@load_of_dangling_free_export_is_closed good_env
    Scenario.export initial eq_refl eq_refl eq_refl))).
Defined.

Lemma closed_world_search {B : JsString.Builtins} (value : string) (w : World) :
  well_formed w = true -> closed_world w = true ->
  closed_world (exec (searchEntity value) w) = true.
Proof.
  intros Hwf Hc.
  destruct (@searchEntity_frame B value w Hwf) as (_ & F2 & F3 & _).
  unfold closed_world in *. rewrite F2, F3.
  destruct (nodes w) as [ns|]; [|reflexivity]. simpl.
  destruct (edges w) as [es|]; [|discriminate].
  rewrite closed_map; [exact Hc | apply repaint_id].
Qed.

(** X22: in a world without dangling edge no search and no click throws,
    and the world they leave has no dangling edge either; so after the
    load of a dangling-free export every sequence of searches and clicks
    runs without exception. *)
Theorem no_exception_without_dangling_edge {B : JsString.Builtins} (w : World) :
  well_formed w = true ->
  closed_world w = true ->
  (forall value,
     fst (searchEntity value w) = Ret tt
     /\ well_formed (exec (searchEntity value) w) = true
     /\ closed_world (exec (searchEntity value) w) = true)
  /\ (nodes w <> None ->
      forall ids,
        fst (onClick ids w) = Ret tt
        /\ well_formed (exec (onClick ids) w) = true
        /\ closed_world (exec (onClick ids) w) = true).
Proof.
  intros Hwf Hc. split.
  - intros value. split; [|split].
    + destruct (JsString.truthy (keyword_of value)) eqn:Hk.
      * destruct (nodes w) as [ns|] eqn:Hns.
        -- rewrite (@searchEntity_keyword B value w ns Hwf Hk Hns). cbv zeta.
           destruct (map VisNode.id (filter (matches (keyword_of value)) ns))
             as [|found [|]]; try reflexivity.
           destruct (network w); [|reflexivity].
           unfold closed_world in Hc. rewrite Hns in Hc.
           destruct (edges w) as [es|] eqn:Hes; [|discriminate].
           unfold bind at 1.
           change (emit (NetworkFocus found)
                     (set_nodes (Some (map (highlight (keyword_of value)) ns)) w))
             with (Ret tt,
                   exec (emit (NetworkFocus found))
                     (set_nodes
                        (Some (map (highlight (keyword_of value)) ns)) w)).
           cbv iota.
           apply (@showEntityDetails_closed _
                    (map (highlight (keyword_of value)) ns) es found).
           ++ reflexivity.
           ++ exact Hes.
           ++ rewrite closed_map; [exact Hc | intros x; apply highlight_keeps].
        -- unfold searchEntity. rewrite Hk. simpl. unfold bind, read.
           cbv beta. now rewrite Hns.
      * now rewrite (@searchEntity_blank B value w Hwf Hk).
    + now apply searchEntity_well_formed.
    + now apply closed_world_search.
  - intros Hn ids. destruct ids as [|i r]; simpl; [repeat split; assumption|].
    unfold closed_world in Hc.
    destruct (nodes w) as [ns|] eqn:Hns; [|congruence].
    destruct (edges w) as [es|] eqn:Hes; [|discriminate].
    pose proof (showEntityDetails_frame i w) as F. cbv zeta in F.
    destruct F as (_ & F2 & F3 & _).
    split; [|split].
    + now apply (@showEntityDetails_closed w ns es i).
    + rewrite <- Hwf. apply well_formed_ext; assumption.
    + unfold closed_world. now rewrite F2, F3, Hns, Hes.
Qed.

Lemma no_exception_without_dangling_edge_witness :
  fst (searchEntity "alice" Scenario.loaded) = Ret tt.
Proof.
  exact (proj1 (proj1 (@no_exception_without_dangling_edge JsString.ascii Scenario.loaded
                         eq_refl eq_refl) "alice")).
Defined.
